(** * exabgp: the BGP session protocol engine (lib/exabgp/bgp/protocol.py)

    A shallow embedding of [Protocol]: the message framer ([read_message]),
    the handshake driver ([read_open], [new_keepalive], [check_keepalive])
    and the outbound pump ([chunked], [_backlog], [_announce]).

    Conventions of the embedding.
    - A Python 2 [str] used as a byte buffer is a [list byte].
    - Python integers are unbounded: [Z].
    - [time.time()] and the connection timestamps are floats; they are
      idealised as exact rationals [Q].  Every reading of the clock made by a
      method is an argument of its model, in call order.
    - The object state is threaded explicitly; an exception leaves the
      mutations made before it in place, as in Python.
    - A generator is modelled by the list of values it yields when it is
      consumed to the end, together with the way it ends. *)

From Stdlib Require Import ZArith List Bool Lia String QArith Qround.
From Stdlib.Strings Require Import Byte.
Import ListNotations.

Open Scope Z_scope.

(** ** Byte buffers *)

Definition bytes := list byte.

Definition len (s : bytes) : Z := Z.of_nat (List.length s).

(** [a == b] on byte buffers. *)
Fixpoint bytes_eqb (a b : bytes) : bool :=
  match a, b with
  | [], [] => true
  | x :: a', y :: b' => Byte.eqb x y && bytes_eqb a' b'
  | _, _ => false
  end.

(** [s[i:j]] for [0 <= i <= j]. *)
Definition slice (i j : nat) (s : bytes) : bytes := firstn (j - i) (skipn i s).

(** The big-endian value of two bytes. *)
Definition length_of (hi lo : byte) : Z :=
  Z.of_N (Byte.to_N hi) * 256 + Z.of_N (Byte.to_N lo).

(** [unpack('!H',raw)[0]]: [struct.error] unless [raw] has two bytes. *)
Definition unpack_H (raw : bytes) : option Z :=
  match raw with
  | [hi; lo] => Some (length_of hi lo)
  | _ => None
  end.

(** ** Exceptions and outcomes *)

(** The third argument of [Notify(code,subcode,data)] as the call site gives
    it: absent, the raw bytes of the header, or a diagnostic text (kept as
    its template and the values formatted into it). *)
Inductive NotifyData :=
| NoData
| Raw (b : bytes)
| Diagnostic (template : string) (args : list Z).

Record Notification := mkNotification {
  n_code : Z;
  n_subcode : Z;
  n_data : bytes
}.

Inductive FailureReason :=
| ConnectionClosed                     (* 'The TCP connection is closed' *)
| CouldNotSendOpen                     (* 'Could not send open' *)
| PeerNotReading (peer_as : Z)         (* 'peer %s not reading on socket - killing session' *)
| OverBacklog (maxb : Z) (peer_as : Z) (* 'over %d chunked routes buffered for peer %s - killing session' *)
| UpdateTooLarge (size : Z).           (* 'Can not send BGP update larger than %d bytes on this connection.' *)

Inductive Exception :=
| Notify (code subcode : Z) (data : NotifyData)
| NotificationReceived (n : Notification)
| Failure (why : FailureReason)
| TypeError
| AttributeError
| IndexError
| StructError
| CodecError.

(** How a call ends: it returns, it raises, or its loop is still waiting
    for the transport when the fuel is spent. *)
Inductive Outcome (A : Type) :=
| Return (a : A)
| Raise (e : Exception)
| Waiting.
Arguments Return {A} a.
Arguments Raise {A} e.
Arguments Waiting {A}.

(** The call ends with [raise Notify(code,subcode,...)]. *)
Definition rejects {A} (r : Outcome A) (code subcode : Z) : Prop :=
  exists d, r = Raise (Notify code subcode d).

(** ** The chunk producer of [_announce] *)

Definition MAX_BACKLOG : Z := 15000.

(** State of the loop of [chunked]: the running [chunk], its fragment count
    [number], and the pairs yielded so far (latest first). *)
Fixpoint chunked_loop (generator : list bytes) (size : Z)
         (chunk : bytes) (number : Z) (out : list (Z * bytes))
  : list (Z * bytes) * option Exception :=
  match generator with
  | [] =>
      match chunk with
      | [] => (rev out, None)
      | _ => (rev ((number, chunk) :: out), None)
      end
  | data :: rest =>
      if len data >? size then (rev out, Some (Failure (UpdateTooLarge size)))
      else if len chunk + len data <=? size
           then chunked_loop rest size (chunk ++ data) (number + 1) out
           else chunked_loop rest size data 1 ((number, chunk) :: out)
  end.

(** [chunked(generator,size)]: the pairs yielded, and the exception that ends
    the generator if there is one. *)
Definition chunked (generator : list bytes) (size : Z)
  : list (Z * bytes) * option Exception :=
  chunked_loop generator size [] 0 [].

Definition chunk_bytes (cs : list (Z * bytes)) : bytes := List.concat (map snd cs).

(** ** Wire constants *)

(** Modelled from the spec: [Message.MARKER] and the [TYPE] constants of the
    message classes are not in this file of the repository; the wire format
    fixes a 16-byte marker and the types 1=OPEN, 2=UPDATE, 3=NOTIFICATION,
    4=KEEPALIVE.  The marker of BGP-4 is sixteen bytes of ones, the type of
    the no-op message is 0. *)
Definition MARKER : bytes := repeat xff 16.
Definition NOP_TYPE : byte := x00.
Definition Open_TYPE : byte := x01.
Definition Update_TYPE : byte := x02.
Definition Notification_TYPE : byte := x03.
Definition KeepAlive_TYPE : byte := x04.

Definition byte_eqb (a b : byte) : bool := Byte.eqb a b.

(** Modelled from the spec: [KeepAlive().message()], the 19-byte message with
    an empty body. *)
Definition KeepAlive_message : bytes := MARKER ++ [x00; x13; KeepAlive_TYPE].

(** ** Clock values *)

(** [int(x)] of a float: truncation toward zero. *)
Definition int_of (x : Q) : Z := Z.quot (Qnum x) (Zpos (Qden x)).

(** Truth value of a number: false exactly for zero. *)
Definition truthy (x : Q) : bool := negb (Qeq_bool x 0).

Definition Qlt_bool (a b : Q) : bool := negb (Qle_bool b a).

(** ** Collaborators *)

(** The transport ([exabgp.bgp.connection.Connection]) through the
    operations the protocol calls.  [pending] takes its optional argument;
    [read n] may deliver fewer bytes than asked, none when the peer closed;
    [write] answers whether the bytes were taken. *)
Class Transport (C : Type) := {
  pending : option bool -> C -> bool * C;
  read : Z -> C -> bytes * C;
  write : bytes -> C -> bool * C;
  last_read : C -> Q;
  last_write : C -> Q
}.

(** The message codecs and the negotiated session state
    ([Open], [Update], [Notification], [Negociated], [HoldTime]), through
    the attributes and methods the protocol uses.  A router identifier is
    the 32-bit number of its four octets, so ['0.0.0.0'] is [0]. *)
Class Collaborators := {
  OpenMessage : Type;
  asn : OpenMessage -> Z;
  open_hold_time : OpenMessage -> Z;
  open_router_id : OpenMessage -> Z;
  Open_factory : bytes -> Outcome OpenMessage;
  Negociated : Type;
  received : OpenMessage -> Negociated -> Negociated;
  asn4_problem : Negociated -> bool;
  negociated_peer_as : Negociated -> Z;
  UpdateMessage : Type;
  routes : UpdateMessage -> bool;
  Update_factory : Negociated -> bytes -> Outcome UpdateMessage;
  Notification_factory : bytes -> Outcome Notification;
  keepalive : Z -> Q
}.

(** [self.neighbor]: read-only for the session. *)
Module Neighbor.
Record t := mk {
  peer_as : Z;
  local_as : Z;
  router_id : Z;
  hold_time : Z;
  parse_routes : bool
}.
End Neighbor.

(** What [self.logger.message] is given, one constructor per call site. *)
Inductive LogLine :=
| LogOpen                                        (* '<< %s' % message *)
| LogKeepaliveEstablished                        (* '<< KEEPALIVE (ESTABLISHED)' *)
| LogBufferNotEmpty                              (* '|| buffer not yet empty, adding KEEPALIVE to it' *)
| LogKeepaliveOpenConfirm                        (* '>> KEEPALIVE (OPENCONFIRM)' *)
| LogKeepaliveNoMoreUpdate                       (* '>> KEEPALIVE (no more UPDATE and no EOR)' *)
| LogKeepaliveBuffering                          (* '|| could not send KEEPALIVE, buffering' *)
| LogKeepalive                                   (* '>> KEEPALIVE' *)
| LogUnableToSend (elapsed : Q) (hold : Z)       (* 'unable to send route for %d second (maximum allowed %d)' *)
| LogBacklog (nb maxb : Z)                       (* 'self._messages of %d/%d chunked routes' *)
| LogFailedFromBuffer (number : Z) (name : string) (* '|| failed to send %d %s(s) from buffer' *)
| LogAddingToBuffer (number : Z) (name : string) (* '|| adding %d  %s(s) to existing buffer' *)
| LogSentBuffered (number : Z) (name : string)   (* '>> %d buffered %s(s)' *)
| LogSent (number : Z) (name : string)           (* '>> %d %s(s)' *)
| LogCouldNotSend (number : Z) (name : string)   (* '|| could not send %d %s(s), buffering' *)
| LogBufferingRest (name : string) (number : Z). (* '|| buffering the rest of the %s(s) (%d)' *)

(** A backlog entry: [(number,name,update)]. *)
Definition Entry : Type := Z * string * bytes.

(** The argument [force] of [new_keepalive]: [None], [True] or [False]. *)
Inductive Force := ForceNone | ForceTrue | ForceFalse.

(** [if force:] *)
Definition force_truth (force : Force) : bool :=
  match force with ForceTrue => true | _ => false end.

Section Protocol.

Context {K : Collaborators} {C : Type} {T : Transport C}.

(** The messages [read_message] returns: [NOP()] and [NOP().factory(msg)],
    [KeepAlive()], a decoded OPEN, a decoded UPDATE. *)
Inductive Message :=
| NOP (data : option byte)
| KeepAlive
| Open (o : OpenMessage)
| Update (u : UpdateMessage).

Definition TYPE (m : Message) : byte :=
  match m with
  | NOP _ => NOP_TYPE
  | KeepAlive => KeepAlive_TYPE
  | Open _ => Open_TYPE
  | Update _ => Update_TYPE
  end.

(** The attributes of a [Protocol] object. *)
Record Protocol := mkProtocol {
  neighbor : Neighbor.t;
  connection : C;
  negociated : Negociated;
  _messages : list Entry;
  _frozen : Q;
  message_size : Z;
  hold_time : option Z;
  logger : list LogLine
}.

(** [Protocol(peer,connection)]: the object as [__init__] leaves it. *)
Definition init (n : Neighbor.t) (c : C) (neg : Negociated) : Protocol :=
  mkProtocol n c neg [] 0%Q (4096 - 19) None [].

Definition set_connection (c : C) (p : Protocol) : Protocol :=
  mkProtocol (neighbor p) c (negociated p) (_messages p) (_frozen p)
             (message_size p) (hold_time p) (logger p).
Definition set_negociated (n : Negociated) (p : Protocol) : Protocol :=
  mkProtocol (neighbor p) (connection p) n (_messages p) (_frozen p)
             (message_size p) (hold_time p) (logger p).
Definition set_messages (ms : list Entry) (p : Protocol) : Protocol :=
  mkProtocol (neighbor p) (connection p) (negociated p) ms (_frozen p)
             (message_size p) (hold_time p) (logger p).
Definition set_frozen (f : Q) (p : Protocol) : Protocol :=
  mkProtocol (neighbor p) (connection p) (negociated p) (_messages p) f
             (message_size p) (hold_time p) (logger p).
Definition set_hold_time (h : option Z) (p : Protocol) : Protocol :=
  mkProtocol (neighbor p) (connection p) (negociated p) (_messages p) (_frozen p)
             (message_size p) h (logger p).
Definition log (l : LogLine) (p : Protocol) : Protocol :=
  mkProtocol (neighbor p) (connection p) (negociated p) (_messages p) (_frozen p)
             (message_size p) (hold_time p) (logger p ++ [l]).
(** [self._messages.append(e)] *)
Definition append (e : Entry) (p : Protocol) : Protocol :=
  set_messages (_messages p ++ [e]) p.

(** *** Methods as state transformers *)

Definition M (A : Type) : Type := Protocol -> Outcome A * Protocol.

Definition ret {A} (a : A) : M A := fun p => (Return a, p).
Definition raise {A} (e : Exception) : M A := fun p => (Raise e, p).
Definition bind {A B} (m : M A) (k : A -> M B) : M B :=
  fun p => match m p with
           | (Return a, p') => k a p'
           | (Raise e, p') => (Raise e, p')
           | (Waiting, p') => (Waiting, p')
           end.
Definition update (f : Protocol -> Protocol) : M unit := fun p => (Return tt, f p).
Definition get {A} (f : Protocol -> A) : M A := fun p => (Return (f p), p).

(** A call on [self.connection]. *)
Definition on_connection {A} (op : C -> A * C) : M A :=
  fun p => let (a, c) := op (connection p) in (Return a, set_connection c p).
Definition on_connection_outcome {A} (op : C -> Outcome A * C) : M A :=
  fun p => let (a, c) := op (connection p) in (a, set_connection c p).
(** A collaborator call that may raise. *)
Definition call {A} (r : Outcome A) : M A := fun p => (r, p).

End Protocol.

Declare Scope protocol_scope.
Delimit Scope protocol_scope with protocol.
Notation "x <- m ;; k" := (bind m (fun x => k))
  (at level 61, m at next level, right associativity) : protocol_scope.
Notation "m ;;; k" := (bind m (fun _ => k))
  (at level 61, right associativity) : protocol_scope.

Section Methods.

Context {K : Collaborators} {C : Type} {T : Transport C}.
Local Open Scope protocol_scope.
Local Abbreviation M := (@M K C).
Local Abbreviation Protocol := (@Protocol K C).

(** *** Read from network *)

(** The accumulation loop of [read_message]:
    [while length: if pending(): delta = read(length); ...]. *)
Fixpoint receive (fuel : nat) (length : Z) (data : bytes) (c : C)
  : Outcome bytes * C :=
  if length =? 0 then (Return data, c)
  else match fuel with
       | O => (Waiting, c)
       | S fuel' =>
           let (ready, c1) := pending None c in
           if ready then
             let (delta, c2) := read length c1 in
             match delta with
             | [] => (Raise (Failure ConnectionClosed), c2)
             | _ => receive fuel' (length - len delta) (data ++ delta) c2
             end
           else receive fuel' length data c1
       end.

(** The per-type length conditions of [read_message]. *)
Definition bad_type_length (msg : byte) (length : Z) : bool :=
  (byte_eqb msg Open_TYPE && (length <? 29))
  || (byte_eqb msg Update_TYPE && (length <? 23))
  || (byte_eqb msg Notification_TYPE && (length <? 21))
  || (byte_eqb msg KeepAlive_TYPE && negb (length =? 19)).

(** The dispatch at the end of [read_message]. *)
Definition dispatch (msg : byte) (data : bytes) : M Message :=
  if byte_eqb msg Notification_TYPE then
    n <- call (Notification_factory data) ;;
    raise (NotificationReceived n)
  else if byte_eqb msg KeepAlive_TYPE then ret KeepAlive
  else if byte_eqb msg Open_TYPE then
    o <- call (Open_factory data) ;; ret (Open o)
  else
    parse <- get (fun p => Neighbor.parse_routes (neighbor p)) ;;
    if byte_eqb msg Update_TYPE && parse then
      neg <- get negociated ;;
      u <- call (Update_factory neg data) ;;
      if routes u then ret (Update u) else ret (NOP (Some msg))
    else ret (NOP (Some msg)).

(** What [read_message] does once the 19 header bytes are in [data]. *)
Definition framed (fuel : nat) (data : bytes) : M Message :=
  if bytes_eqb (slice 0 16 data) MARKER then
    let raw_length := slice 16 18 data in
    match unpack_H raw_length with
    | None => raise StructError
    | Some length =>
        match nth_error data 18 with
        | None => raise IndexError
        | Some msg =>
            if (length <? 19) || (length >? 4096) then
              raise (Notify 1 2 NoData)
            else if bad_type_length msg length then
              raise (Notify 1 2 (Raw raw_length))
            else
              body <- on_connection_outcome (receive fuel (length - 19) []) ;;
              dispatch msg body
        end
    end
  else
    raise (Notify 1 1 (Diagnostic "The packet received does not contain a BGP marker" [])).

Definition read_message (fuel : nat) : M Message :=
  ready <- on_connection (pending (Some true)) ;;
  if negb ready then ret (NOP None)
  else
    data <- on_connection_outcome (receive fuel 19 []) ;;
    framed fuel data.

(** The part of [read_open] after [message = self.read_message()]. *)
Definition opened (message : Message) : M Message :=
  if byte_eqb (TYPE message) NOP_TYPE then ret message
  else match message with
  | Open o =>
      update (fun p => set_negociated (received o (negociated p)) p) ;;;
      neg <- get negociated ;;
      nb <- get neighbor ;;
      if asn4_problem neg then
        raise (Notify 2 0 (Diagnostic "We have an ASN4 and you do not speak it. bye." []))
      else if negb (negociated_peer_as neg =? Neighbor.peer_as nb) then
        raise (Notify 2 2 (Diagnostic "ASN in OPEN (%d) did not match ASN expected (%d)"
                                      [asn o; Neighbor.peer_as nb]))
      else if open_router_id o =? 0 then
        raise (Notify 2 3 (Diagnostic "0.0.0.0 is an invalid router_id according to RFC6286" []))
      else if (open_router_id o =? Neighbor.router_id nb) && (asn o =? Neighbor.local_as nb) then
        raise (Notify 2 3 (Diagnostic "BGP Indendifier collision (%s) on IBGP according to RFC 6286"
                                      [open_router_id o]))
      else if open_hold_time o <? 3 then
        raise (Notify 2 6 (Diagnostic "Hold Time is invalid (%d)" [open_hold_time o]))
      else
        (if open_hold_time o >=? 3
         then update (set_hold_time (Some (Z.min (Neighbor.hold_time nb) (open_hold_time o))))
         else ret tt) ;;;
        update (log LogOpen) ;;;
        ret message
  | _ =>
      raise (Notify 5 1 (Diagnostic "The first packet recevied is not an open message (%s)" []))
  end.

Definition read_open (fuel : nat) : M Message :=
  message <- read_message fuel ;; opened message.

Definition read_keepalive (fuel : nat) : M Message :=
  message <- read_message fuel ;;
  if byte_eqb (TYPE message) NOP_TYPE then ret message
  else if negb (byte_eqb (TYPE message) KeepAlive_TYPE) then raise (Notify 5 2 NoData)
  else update (log LogKeepaliveEstablished) ;;; ret message.

(** [p'] is [p] but for its connection. *)
Definition same_but_connection (p p' : Protocol) : Prop :=
  p' = set_connection (connection p') p.

(** *** Sending message to peer *)

(** [check_keepalive], [now] being the reading of [time.time()]. *)
Definition check_keepalive (now : Q) : M Z :=
  c <- get connection ;;
  h <- get hold_time ;;
  match h with
  | None => raise TypeError
  | Some h =>
      let left := int_of (last_read c + inject_Z h - now) in
      if left <=? 0 then raise (Notify 4 0 NoData) else ret left
  end.

(** [new_keepalive(force)], [now] being the reading of [time.time()].  The
    result is [(left,k)] or [(left,None)]. *)
Definition new_keepalive (force : Force) (now : Q) : M (Z * option Message) :=
  c <- get connection ;;
  h <- get hold_time ;;
  match h with
  | None => raise AttributeError
  | Some h =>
      let left := int_of (last_write c + keepalive h - now) in
      let k := KeepAlive in
      let m := KeepAlive_message in
      if force_truth force then
        written <- on_connection (write KeepAlive_message) ;;
        (if negb written then
           update (log LogBufferNotEmpty) ;;;
           update (append (1, "KEEPALIVE"%string, m))
         else
           update (set_frozen 0%Q) ;;;
           match force with
           | ForceTrue => update (log LogKeepaliveOpenConfirm)
           | ForceFalse => update (log LogKeepaliveNoMoreUpdate)
           | ForceNone => ret tt
           end) ;;;
        ret (left, Some k)
      else if left <=? 0 then
        written <- on_connection (write KeepAlive_message) ;;
        (if negb written then
           update (log LogKeepaliveBuffering) ;;;
           update (append (1, "KEEPALIVE"%string, m))
         else
           update (log LogKeepalive) ;;;
           update (set_frozen 0%Q)) ;;;
        ret (left, Some k)
      else ret (left, None)
  end.

(** [clear_buffer] and [buffered]. *)
Definition clear_buffer : M unit := update (set_messages []).
Definition buffered : M Z := get (fun p => Z.of_nat (List.length (_messages p))).

(** A generator consumed to the end: the values yielded, how it ended, and
    the object it leaves. *)
Definition Gen : Type := Protocol -> list Z * Outcome unit * Protocol.

(** The part of [_backlog] before its loop.  [t1], [t2] and [t3] are the
    readings of [time.time()]: when the stall clock is set, when it is
    compared, and in the log line. *)
Definition stall_check (t1 t2 t3 : Q) : M unit :=
  ms <- get _messages ;;
  match ms with
  | [] => ret tt
  | _ =>
      f0 <- get _frozen ;;
      (if negb (truthy f0) then update (set_frozen t1) else ret tt) ;;;
      f <- get _frozen ;;
      h <- get hold_time ;;
      nb <- get neighbor ;;
      match h with
      | None => raise TypeError
      | Some h =>
          if truthy f && Qlt_bool (f + inject_Z h) t2 then
            raise (Failure (PeerNotReading (Neighbor.peer_as nb)))
          else
            update (log (LogUnableToSend (t3 - f) h)) ;;;
            let nb_backlog := Z.of_nat (List.length ms) in
            if nb_backlog >? MAX_BACKLOG then
              raise (Failure (OverBacklog MAX_BACKLOG (Neighbor.peer_as nb)))
            else update (log (LogBacklog nb_backlog MAX_BACKLOG))
      end
  end.

Definition logs (lines : list LogLine) (p : Protocol) : Protocol :=
  fold_left (fun q l => log l q) lines p.

(** The loop of [_backlog], [ms] being [self._messages]; [echo] is what the
    consumer logs at each value yielded, before the loop goes on. *)
Fixpoint drain (echo : Z -> list LogLine) (ms : list Entry) (p : Protocol)
  : list Z * Protocol :=
  match ms with
  | [] => ([], p)
  | (number, name, update) :: rest =>
      let (written, c) := write update (connection p) in
      let p1 := set_connection c p in
      if negb written then ([], log (LogFailedFromBuffer number name) p1)
      else
        let p2 := set_frozen 0%Q (set_messages rest p1) in
        let p3 := logs (echo number) p2 in
        let (ys, p4) := drain echo rest p3 in
        (number :: ys, p4)
  end.

Definition _backlog (echo : Z -> list LogLine) (t1 t2 t3 : Q) : Gen :=
  fun p =>
    match stall_check t1 t2 t3 p with
    | (Return _, p1) =>
        let (ys, p2) := drain echo (_messages p1) p1 in (ys, Return tt, p2)
    | (Raise e, p1) => ([], Raise e, p1)
    | (Waiting, p1) => ([], Waiting, p1)
    end.

(** The backlog entry of a chunk. *)
Definition entry (name : string) (c : Z * bytes) : Entry := (fst c, name, snd c).

(** The first loop of [_announce], taken when the backlog is not empty. *)
Definition buffer_chunks (name : string) (chunks : list (Z * bytes)) (p : Protocol)
  : Protocol :=
  fold_left (fun q c => append (entry name c)
                               (log (LogAddingToBuffer (fst c) name) q))
            chunks p.

(** The loop of [_announce] taken when the backlog is empty. *)
Fixpoint direct (name : string) (sending : bool) (chunks : list (Z * bytes))
         (p : Protocol) : list Z * Protocol :=
  match chunks with
  | [] => ([], p)
  | (number, update) :: rest =>
      if sending then
        let (written, c) := write update (connection p) in
        let p1 := set_connection c p in
        if written then
          let (ys, p2) := direct name true rest (log (LogSent number name) p1) in
          (number :: ys, p2)
        else
          direct name false rest
                 (append (number, name, update) (log (LogCouldNotSend number name) p1))
      else
        let (ys, p1) :=
          direct name false rest
                 (append (number, name, update) (log (LogBufferingRest name number) p)) in
        (0 :: ys, p1)
  end.

(** The direct writes of the chunks [cs], in order, when the transport
    takes every one of them: the connection they leave. *)
Fixpoint written_all (cs : list (Z * bytes)) (c : C) : option C :=
  match cs with
  | [] => Some c
  | (_, update) :: rest =>
      let (written, c') := write update c in
      if written then written_all rest c' else None
  end.

Definition ended (e : option Exception) : Outcome unit :=
  match e with Some e => Raise e | None => Return tt end.

(** [_announce(name,generator)], the generator given by the fragments it
    produces. *)
Definition _announce (name : string) (generator : list bytes) (t1 t2 t3 : Q) : Gen :=
  fun p =>
    let (chunks, e) := chunked generator (message_size p) in
    match _messages p with
    | _ :: _ =>
        let p1 := buffer_chunks name chunks p in
        match e with
        | Some e => ([], Raise e, p1)
        | None => _backlog (fun number => [LogSentBuffered number name]) t1 t2 t3 p1
        end
    | [] =>
        let (ys, p1) := direct name true chunks p in
        (ys, ended e, p1)
    end.

End Methods.

(** ** A scripted transport and plain codecs

    The source tests the protocol on a modified StringIO with an extra
    [pending] function (see [connect]); [Scripted] is such a double: it
    delivers what its inbox holds, answers the writes from a list, and
    records the sizes asked of [read] and the bytes that [write] took. *)

Module Scripted.

Record t := mk {
  inbox : list bytes;
  answers : list bool;
  asked : list Z;
  sent : list bytes;
  read_at : Q;
  written_at : Q
}.

Definition is_pending (_ : option bool) (c : t) : bool * t :=
  (match inbox c with [] => false | _ => true end, c).

Definition deliver (n : Z) (c : t) : bytes * t :=
  match inbox c with
  | [] => ([], mk [] (answers c) (asked c ++ [n]) (sent c) (read_at c) (written_at c))
  | chunk :: rest =>
      let k := Z.to_nat n in
      let left := match skipn k chunk with [] => rest | more => more :: rest end in
      (firstn k chunk,
       mk left (answers c) (asked c ++ [n]) (sent c) (read_at c) (written_at c))
  end.

Definition take (b : bytes) (c : t) : bool * t :=
  match answers c with
  | [] => (false, c)
  | true :: rest =>
      (true, mk (inbox c) rest (asked c) (sent c ++ [b]) (read_at c) (written_at c))
  | false :: rest =>
      (false, mk (inbox c) rest (asked c) (sent c) (read_at c) (written_at c))
  end.

#[global] Instance transport : Transport t := {|
  pending := is_pending;
  read := deliver;
  write := take;
  last_read := read_at;
  last_write := written_at
|}.

(** A connection with [input] to deliver, answering writes by [ws]. *)
Definition make (input : list bytes) (ws : list bool) : t :=
  mk input ws [] [] 0%Q 0%Q.

End Scripted.

Module Plain.

(** The fixed part of an OPEN body: version, ASN, hold time, identifier. *)
Record open := mk_open {
  o_version : Z;
  o_asn : Z;
  o_hold_time : Z;
  o_router_id : Z;
  o_asn4 : bool
}.

Definition num (b : byte) : Z := Z.of_N (Byte.to_N b).

Definition decode_open (data : bytes) : Outcome open :=
  match data with
  | v :: a1 :: a0 :: h1 :: h0 :: r3 :: r2 :: r1 :: r0 :: optlen :: _ =>
      Return (mk_open (num v) (num a1 * 256 + num a0) (num h1 * 256 + num h0)
                      (((num r3 * 256 + num r2) * 256 + num r1) * 256 + num r0)
                      (negb (Byte.eqb optlen x00)))
  | _ => Raise CodecError
  end.

Record negociated := mk_neg {
  sent_asn4 : bool;
  received_open : option open
}.

Definition record_open (o : open) (n : negociated) : negociated :=
  mk_neg (sent_asn4 n) (Some o).

Definition placeholder_problem (n : negociated) : bool :=
  match received_open n with
  | Some o => sent_asn4 n && negb (o_asn4 o) && (o_asn o =? 23456)
  | None => false
  end.

Definition peer_as (n : negociated) : Z :=
  match received_open n with Some o => o_asn o | None => 0 end.

Definition decode_notification (data : bytes) : Outcome Notification :=
  match data with
  | c :: s :: rest => Return (mkNotification (num c) (num s) rest)
  | _ => Raise IndexError
  end.

#[global] Instance collaborators : Collaborators := {|
  OpenMessage := open;
  asn := o_asn;
  open_hold_time := o_hold_time;
  open_router_id := o_router_id;
  Open_factory := decode_open;
  Negociated := negociated;
  received := record_open;
  asn4_problem := placeholder_problem;
  negociated_peer_as := peer_as;
  UpdateMessage := bytes;
  routes := fun u => match u with [] => false | _ => true end;
  Update_factory := fun _ data => Return data;
  Notification_factory := decode_notification;
  keepalive := fun h => inject_Z (h / 3)
|}.

(** A neighbor expecting AS 65001 from AS 65000, hold time 180. *)
Definition neighbor : Neighbor.t := Neighbor.mk 65001 65000 167772161 180 true.

(** A new protocol object on the connection [c]. *)
Definition protocol (c : Scripted.t) : Protocol :=
  init neighbor c (mk_neg true None).

(** A 19-byte header with the length bytes [hi], [lo] and the type [ty]. *)
Definition header (hi lo ty : byte) : bytes := MARKER ++ [hi; lo; ty].

End Plain.

(** ** Sessions on the scripted transport *)

(** An OPEN of AS 65001, hold time 3, identifier 10.0.0.2, no option. *)
Definition open_hold_3 : bytes :=
  [x04; xfd; xe9; x00; x03; x0a; x00; x00; x02; x00].

(** A session about to receive that OPEN. *)
Definition session_open_hold_3 : Protocol :=
  Plain.protocol (Scripted.make [Plain.header x00 x1d x01; open_hold_3] []).

(** An established session, hold time 180, whose connection answers the
    writes by [ws], with [ms] in the backlog, the stall clock at [frozen] and
    the message size [size]. *)
Definition established (ws : list bool) (ms : list Entry) (frozen : Q) (size : Z)
  : Protocol :=
  mkProtocol Plain.neighbor (Scripted.make [] ws) (Plain.mk_neg true None)
             ms frozen size (Some 180) [].

(** Two chunks waiting since the time 100; the next write will pass, the one
    after it will not. *)
Definition two_queued : Protocol :=
  established [true; false]
              [(1, "UPDATE"%string, [x01]); (1, "UPDATE"%string, [x02])]
              100%Q (4096 - 19).

(** More entries than [MAX_BACKLOG] in the backlog. *)
Definition over_queued : Protocol :=
  established [] (repeat (1, "UPDATE"%string, [x01]) (Z.to_nat 15001))
              100%Q (4096 - 19).

(** ** The callers of [_announce] *)

Section Announcements.

Context {K : Collaborators} {C : Type} {T : Transport C}.
Local Abbreviation Protocol := (@Protocol K C).
Local Abbreviation M := (@M K C).

(** [new_update], the generator [self._delta.updates(...)] given by the
    fragments it produces: every value of [_announce] is yielded again. *)
Definition new_update (updates : list bytes) (t1 t2 t3 : Q) : Gen :=
  _announce "UPDATE" updates t1 t2 t3.

(** One turn of the loop of [new_eors]: [str(eor)], [eor.pack()], and the
    readings of the clock made while [_announce] runs for this family. *)
Record EorCall := mkEorCall {
  eor_name : string;
  eor_pack : bytes;
  eor_clock : Q * Q * Q
}.

(** [new_eors], the end-of-RIB markers of [self.negociated.families] given
    in the order of the families; the values of [_announce] are dropped, an
    exception ends the loop. *)
Fixpoint new_eors (eors : list EorCall) : M unit :=
  match eors with
  | [] => fun p => (Return tt, p)
  | eor :: rest =>
      fun p =>
        let '(t1, t2, t3) := eor_clock eor in
        match _announce (eor_name eor) [eor_pack eor] t1 t2 t3 p with
        | (_, Return _, p1) => new_eors rest p1
        | (_, Raise e, p1) => (Raise e, p1)
        | (_, Waiting, p1) => (Waiting, p1)
        end
  end.

End Announcements.

(** ** Observing the wire

    A transport put under observation: [wire] lists, in order, the buffers
    that [write] took.  Whatever the transport under it does, the protocol
    run on [Recorded.t C] behaves as on [C]; the record only adds what is
    needed to state what went out and in which order. *)

Module Recorded.

Record t (C : Type) := mk {
  inner : C;
  wire : list bytes
}.
Arguments mk {C} inner wire.
Arguments inner {C} t.
Arguments wire {C} t.

Definition transport {C : Type} {T : Transport C} : Transport (t C) := {|
  pending := fun o c => let (b, i) := pending o (inner c) in (b, mk i (wire c));
  read := fun n c => let (d, i) := read n (inner c) in (d, mk i (wire c));
  write := fun b c =>
             let (ok, i) := write b (inner c) in
             (ok, mk i (if ok then wire c ++ [b] else wire c));
  last_read := fun c => last_read (inner c);
  last_write := fun c => last_write (inner c)
|}.

End Recorded.

(** What went out followed by what waits: the buffers taken by the
    transport, then the bytes of the backlog entries. *)
Definition stream {K : Collaborators} {C : Type}
           (p : @Protocol K (Recorded.t C)) : list bytes :=
  Recorded.wire (connection p) ++ map snd (_messages p).

(** ** Measures on chunks and backlog entries *)

(** The bytes and the count of a backlog entry [(number,name,update)]. *)
Definition payload (e : Entry) : bytes := snd e.
Definition count_of (e : Entry) : Z := fst (fst e).

(** A backlog entry as the chunk it was made of. *)
Definition chunk_of (e : Entry) : Z * bytes := (count_of e, payload e).

(** The sum of the counts of the chunks. *)
Definition counts (cs : list (Z * bytes)) : Z := fold_right Z.add 0 (map fst cs).

(** No two neighbouring chunks would fit together in [size] bytes. *)
Fixpoint packed (size : Z) (cs : list (Z * bytes)) : Prop :=
  match cs with
  | [] => True
  | a :: rest =>
      match rest with
      | [] => True
      | b :: _ => size < len (snd a) + len (snd b)
      end /\ packed size rest
  end.

(** An established session on an observed scripted connection. *)
Definition observed (ws : list bool) (ms : list Entry) (size : Z)
  : @Protocol Plain.collaborators (Recorded.t Scripted.t) :=
  mkProtocol Plain.neighbor (Recorded.mk (Scripted.make [] ws) [])
             (Plain.mk_neg true None) ms 0%Q size (Some 180) [].

(** A header whose marker field is sixteen zero bytes. *)
Definition unmarked_header : bytes := repeat x00 16 ++ [x00; x13; x04].

(** The end-of-RIB markers of two families, as [new_eors] goes through them. *)
Definition two_eors : list EorCall :=
  [mkEorCall "EOR 1/1" [x00; x01] (0%Q, 0%Q, 0%Q);
   mkEorCall "EOR 2/1" [x00; x02] (0%Q, 0%Q, 0%Q)].

(** * Properties of the chunk producer *)

(** Split an equation between pairs and substitute, leaving its sides as
    they are written. *)
Ltac pair_eq H :=
  apply pair_equal_spec in H;
  let H1 := fresh in let H2 := fresh in
  destruct H as [H1 H2]; try subst; try discriminate.

Section Chunking.

Variable size : Z.

Lemma len_app (a b : bytes) : len (a ++ b) = len a + len b.
Proof. unfold len. rewrite length_app. lia. Qed.

Lemma len_nonneg (a : bytes) : 0 <= len a.
Proof. unfold len. lia. Qed.

Lemma gtb_false (a b : Z) : (a >? b) = false <-> a <= b.
Proof. rewrite Z.gtb_ltb, Z.ltb_ge. tauto. Qed.

Lemma chunk_bytes_snoc (cs : list (Z * bytes)) n c :
  chunk_bytes (cs ++ [(n, c)]) = chunk_bytes cs ++ c.
Proof.
  unfold chunk_bytes. rewrite map_app, concat_app. simpl.
  now rewrite app_nil_r.
Qed.

(** The loop keeps the bytes: what was yielded, then the running chunk, then
    the fragments still to come. *)
Lemma chunked_loop_bytes (generator : list bytes) :
  forall chunk number out cs,
    Forall (fun d => len d <= size) generator ->
    chunked_loop generator size chunk number out = (cs, None) ->
    chunk_bytes cs = chunk_bytes (rev out) ++ chunk ++ List.concat generator.
Proof.
  induction generator as [|data rest IH]; intros chunk number out cs Hall Hrun.
  - cbn [chunked_loop] in Hrun. destruct chunk as [|b chunk'].
    + pair_eq Hrun. now rewrite app_nil_r.
    + pair_eq Hrun. simpl rev. rewrite chunk_bytes_snoc.
      now rewrite app_nil_r.
  - cbn [chunked_loop] in Hrun. inversion Hall as [|? ? Hd Hrest]; subst.
    destruct (len data >? size) eqn:Hbig; [discriminate|].
    destruct (len chunk + len data <=? size) eqn:Hfit.
    + rewrite (IH _ _ _ _ Hrest Hrun). simpl. now rewrite <- app_assoc.
    + rewrite (IH _ _ _ _ Hrest Hrun). simpl rev. rewrite chunk_bytes_snoc.
      simpl. now rewrite <- !app_assoc.
Qed.

(** With fragments within the bound the producer ends normally. *)
Lemma chunked_loop_total (generator : list bytes) :
  forall chunk number out,
    Forall (fun d => len d <= size) generator ->
    exists cs, chunked_loop generator size chunk number out = (cs, None).
Proof.
  induction generator as [|data rest IH]; intros chunk number out Hall.
  - simpl. destruct chunk; eauto.
  - simpl. inversion Hall as [|? ? Hd Hrest]; subst.
    rewrite (proj2 (gtb_false _ _) Hd).
    destruct (len chunk + len data <=? size); eauto.
Qed.

(** Every pair yielded holds at most [size] bytes. *)
Lemma chunked_loop_bound (generator : list bytes) :
  forall chunk number out cs e,
    (chunk <> [] -> len chunk <= size) ->
    Forall (fun c => len (snd c) <= size) out ->
    chunked_loop generator size chunk number out = (cs, e) ->
    Forall (fun c => len (snd c) <= size) cs.
Proof.
  induction generator as [|data rest IH]; intros chunk number out cs e Hc Hout Hrun.
  - cbn [chunked_loop] in Hrun. destruct chunk as [|b chunk'].
    + pair_eq Hrun. now apply Forall_rev.
    + pair_eq Hrun. apply Forall_rev. constructor; [|exact Hout].
      apply Hc. discriminate.
  - cbn [chunked_loop] in Hrun.
    destruct (len data >? size) eqn:Hbig.
    + pair_eq Hrun. now apply Forall_rev.
    + assert (len data <= size) by (now apply gtb_false).
      destruct (len chunk + len data <=? size) eqn:Hfit.
      * eapply IH; [ | exact Hout | exact Hrun].
        intros _. rewrite len_app. apply Z.leb_le in Hfit. lia.
      * assert (chunk <> []).
        { intros ->. apply Z.leb_gt in Hfit. change (len []) with 0 in Hfit. lia. }
        eapply IH; [intros _; exact H | | exact Hrun].
        constructor; [simpl; auto | exact Hout].
Qed.

(** Every pair yielded folds at least one fragment. *)
Lemma chunked_loop_positive (generator : list bytes) :
  forall chunk number out cs e,
    (chunk <> [] -> 0 < number) -> 0 <= number ->
    Forall (fun c => 0 < fst c) out ->
    chunked_loop generator size chunk number out = (cs, e) ->
    Forall (fun c => 0 < fst c) cs.
Proof.
  induction generator as [|data rest IH]; intros chunk number out cs e Hn H0 Hout Hrun.
  - cbn [chunked_loop] in Hrun. destruct chunk as [|b chunk'].
    + pair_eq Hrun. now apply Forall_rev.
    + pair_eq Hrun. apply Forall_rev. constructor; [|exact Hout].
      simpl. apply Hn. discriminate.
  - cbn [chunked_loop] in Hrun.
    destruct (len data >? size) eqn:Hbig.
    + pair_eq Hrun. now apply Forall_rev.
    + destruct (len chunk + len data <=? size) eqn:Hfit.
      * eapply IH; [ | | exact Hout | exact Hrun]; intros; lia.
      * assert (chunk <> []).
        { intros ->. apply Z.leb_gt in Hfit. apply gtb_false in Hbig.
          change (len []) with 0 in Hfit. lia. }
        eapply IH; [ | | | exact Hrun]; try (intros; lia).
        constructor; [simpl; auto | exact Hout].
Qed.

(** A fragment wider than [size] ends the producer with the failure. *)
Lemma chunked_loop_too_large (generator : list bytes) :
  forall chunk number out,
    Exists (fun d => size < len d) generator ->
    exists cs, chunked_loop generator size chunk number out
               = (cs, Some (Failure (UpdateTooLarge size))).
Proof.
  induction generator as [|data rest IH]; intros chunk number out Hex.
  - inversion Hex.
  - simpl. destruct (len data >? size) eqn:Hbig; [eauto|].
    inversion Hex as [? ? Hd|? ? Hrest]; subst.
    + apply gtb_false in Hbig. lia.
    + destruct (len chunk + len data <=? size); now apply IH.
Qed.

End Chunking.

(** C4. For fragments that are each at most [size] bytes long, [chunked]
    ends normally, the bytes of the chunks it yields, in order, are the bytes
    of the fragments in order, and no chunk is longer than [size]; a fragment
    longer than [size] ends it with the failure 'Can not send BGP update
    larger than ...'. *)
Theorem chunked_concatenation (generator : list bytes) (size : Z) :
  (Forall (fun d => len d <= size) generator ->
   exists cs, chunked generator size = (cs, None)
              /\ chunk_bytes cs = List.concat generator
              /\ Forall (fun c => len (snd c) <= size) cs)
  /\ (Exists (fun d => size < len d) generator ->
      exists cs, chunked generator size
                 = (cs, Some (Failure (UpdateTooLarge size)))).
Proof.
  split.
  - intros Hall. unfold chunked.
    destruct (chunked_loop_total size generator [] 0 [] Hall) as [cs Hcs].
    exists cs. split; [exact Hcs|]. split.
    + now rewrite (chunked_loop_bytes size generator _ _ _ _ Hall Hcs).
    + eapply chunked_loop_bound; [ | | exact Hcs]; [congruence | constructor].
  - intros Hex. now apply chunked_loop_too_large.
Qed.

Lemma chunked_concatenation_witness :
  Forall (fun d => len d <= 3) [[x01; x02]; [x03]; [x04; x05]]
  /\ exists cs, chunked [[x01; x02]; [x03]; [x04; x05]] 3 = (cs, None)
                /\ chunk_bytes cs = [x01; x02; x03; x04; x05]
                /\ Forall (fun c => len (snd c) <= 3) cs.
Proof.
  assert (H : Forall (fun d => len d <= 3) [[x01; x02]; [x03]; [x04; x05]])
    by (repeat constructor; vm_compute; discriminate).
  split; [exact H|].
  exact (proj1 (chunked_concatenation [[x01; x02]; [x03]; [x04; x05]] 3) H).
Defined.

(** * Properties of the framer and of the handshake driver *)

Section Framer.

Context {K : Collaborators} {C : Type} {T : Transport C}.
Local Abbreviation Protocol := (@Protocol K C).

(** Unfold the plumbing of the state transformers. *)
Ltac plumbing :=
  unfold bind, ret, raise, update, get, call, on_connection,
    on_connection_outcome in *.

Lemma bytes_eqb_refl (a : bytes) : bytes_eqb a a = true.
Proof.
  induction a as [|x a IH]; [reflexivity|].
  simpl. rewrite IH. now destruct x.
Qed.

(** A well-marked header is taken apart into its length and type. *)
Lemma framed_header (fuel : nat) (hi lo ty : byte) (p : Protocol) :
  framed fuel (MARKER ++ [hi; lo; ty]) p =
  (if (length_of hi lo <? 19) || (length_of hi lo >? 4096) then
     raise (Notify 1 2 NoData)
   else if bad_type_length ty (length_of hi lo) then
     raise (Notify 1 2 (Raw [hi; lo]))
   else
     bind (on_connection_outcome (receive fuel (length_of hi lo - 19) []))
          (fun body => dispatch ty body)) p.
Proof. reflexivity. Qed.

(** A length outside [19,4096] is refused at once: the connection is left
    as the header read left it, and the rejection is built without data. *)
Lemma framed_length_out_of_range (fuel : nat) (hi lo ty : byte) (p : Protocol) :
  length_of hi lo < 19 \/ 4096 < length_of hi lo ->
  framed fuel (MARKER ++ [hi; lo; ty]) p = (Raise (Notify 1 2 NoData), p).
Proof.
  intros Hout. rewrite framed_header.
  replace ((length_of hi lo <? 19) || (length_of hi lo >? 4096)) with true; [reflexivity|].
  symmetry. apply orb_true_iff. rewrite Z.ltb_lt, Z.gtb_ltb, Z.ltb_lt. exact Hout.
Qed.

(** Within [19,4096], a length under the minimum of its type is refused
    with the two length bytes as data. *)
Lemma framed_length_under_minimum (fuel : nat) (hi lo ty : byte) (p : Protocol) :
  19 <= length_of hi lo <= 4096 ->
  bad_type_length ty (length_of hi lo) = true ->
  framed fuel (MARKER ++ [hi; lo; ty]) p = (Raise (Notify 1 2 (Raw [hi; lo])), p).
Proof.
  intros Hin Hbad. rewrite framed_header.
  replace ((length_of hi lo <? 19) || (length_of hi lo >? 4096)) with false.
  - now rewrite Hbad.
  - symmetry. apply orb_false_iff. rewrite Z.ltb_ge, gtb_false. lia.
Qed.

(** [receive] only acts on the connection; [dispatch], [framed] and
    [read_message] leave every other attribute as it was. *)
Lemma same_but_connection_refl (p : Protocol) : same_but_connection p p.
Proof. now destruct p. Qed.

Lemma same_but_connection_set (c : C) (p : Protocol) :
  same_but_connection p (set_connection c p).
Proof. now destruct p. Qed.

Lemma same_but_connection_trans (p q r : Protocol) :
  same_but_connection p q -> same_but_connection q r -> same_but_connection p r.
Proof.
  unfold same_but_connection. intros Hq Hr. rewrite Hr at 1. rewrite Hq at 1.
  now destruct p.
Qed.

Lemma dispatch_frame (msg : byte) (data : bytes) (p : Protocol) :
  snd (dispatch msg data p) = p.
Proof.
  unfold dispatch. plumbing.
  repeat match goal with
         | |- context [if ?b then _ else _] => destruct b
         | |- context [match ?x with _ => _ end] => destruct x
         end; reflexivity.
Qed.

Lemma framed_frame (fuel : nat) (data : bytes) (p : Protocol) :
  same_but_connection p (snd (framed fuel data p)).
Proof.
  unfold framed. plumbing.
  destruct (bytes_eqb _ _); [|apply same_but_connection_refl].
  destruct (unpack_H _); [|apply same_but_connection_refl].
  destruct (nth_error _ _); [|apply same_but_connection_refl].
  destruct (_ || _); [apply same_but_connection_refl|].
  destruct (bad_type_length _ _); [apply same_but_connection_refl|].
  destruct (receive _ _ _ _) as [[body|e|] c]; simpl;
    try apply same_but_connection_set.
  rewrite dispatch_frame. apply same_but_connection_set.
Qed.

Lemma read_message_frame (fuel : nat) (p : Protocol) :
  same_but_connection p (snd (read_message fuel p)).
Proof.
  unfold read_message. plumbing.
  destruct (pending _ _) as [ready c0]. destruct ready; simpl;
    [|apply same_but_connection_set].
  destruct (receive _ _ _ _) as [[data|e|] c1]; simpl;
    try (eapply same_but_connection_trans; apply same_but_connection_set).
  eapply same_but_connection_trans; [|apply framed_frame].
  eapply same_but_connection_trans; apply same_but_connection_set.
Qed.

(** Once the header is in, [read_message] is [framed] on it. *)
Lemma read_message_framed (fuel : nat) (p : Protocol) (c0 c1 : C) (data : bytes) :
  pending (Some true) (connection p) = (true, c0) ->
  receive fuel 19 [] c0 = (Return data, c1) ->
  read_message fuel p = framed fuel data (set_connection c1 p).
Proof.
  intros Hp Hr. unfold read_message. plumbing. rewrite Hp. simpl.
  rewrite Hr. now destruct p.
Qed.

(** What [opened] does with an OPEN. *)
Lemma opened_open (o : OpenMessage) (p : Protocol) :
  let neg := received o (negociated p) in
  let nb := neighbor p in
  let q := set_negociated neg p in
  opened (Open o) p =
  if asn4_problem neg then
    (Raise (Notify 2 0 (Diagnostic "We have an ASN4 and you do not speak it. bye." [])), q)
  else if negb (negociated_peer_as neg =? Neighbor.peer_as nb) then
    (Raise (Notify 2 2 (Diagnostic "ASN in OPEN (%d) did not match ASN expected (%d)"
                                   [asn o; Neighbor.peer_as nb])), q)
  else if open_router_id o =? 0 then
    (Raise (Notify 2 3 (Diagnostic "0.0.0.0 is an invalid router_id according to RFC6286" [])), q)
  else if (open_router_id o =? Neighbor.router_id nb) && (asn o =? Neighbor.local_as nb) then
    (Raise (Notify 2 3 (Diagnostic "BGP Indendifier collision (%s) on IBGP according to RFC 6286"
                                   [open_router_id o])), q)
  else if open_hold_time o <? 3 then
    (Raise (Notify 2 6 (Diagnostic "Hold Time is invalid (%d)" [open_hold_time o])), q)
  else
    (Return (Open o),
     log LogOpen (set_hold_time (Some (Z.min (Neighbor.hold_time nb) (open_hold_time o))) q)).
Proof.
  intros neg nb q. unfold opened. plumbing. simpl.
  fold neg. fold nb. fold q.
  destruct (asn4_problem neg); [reflexivity|].
  destruct (negb _); [reflexivity|].
  destruct (open_router_id o =? 0); [reflexivity|].
  destruct (_ && _); [reflexivity|].
  destruct (open_hold_time o <? 3) eqn:Hh; [reflexivity|].
  replace (open_hold_time o >=? 3) with true; [reflexivity|].
  symmetry. apply Z.geb_le. apply Z.ltb_ge in Hh. lia.
Qed.

Lemma read_open_opened (fuel : nat) (p p1 : Protocol) (m : Message) :
  read_message fuel p = (Return m, p1) ->
  read_open fuel p = opened m p1.
Proof. intros H. unfold read_open, bind. now rewrite H. Qed.

(** C1. When the framer hands an OPEN to [read_open], the checks run in
    this order: an ASN4 problem is refused with Notify(2,0); then a
    negotiated peer ASN other than the one configured with Notify(2,2);
    then the router identifier 0.0.0.0 with Notify(2,3); then the local
    router identifier together with the local ASN with Notify(2,3); then a
    hold time under 3 with Notify(2,6); otherwise the session hold time
    becomes the smaller of the configured and the advertised hold time and
    the OPEN is returned. *)
Theorem read_open_validation_order (fuel : nat) (p p1 : Protocol) (o : OpenMessage) :
  read_message fuel p = (Return (Open o), p1) ->
  let neg := received o (negociated p1) in
  let nb := neighbor p1 in
  let r := read_open fuel p in
  (asn4_problem neg = true -> rejects (fst r) 2 0)
  /\ (asn4_problem neg = false ->
      (negociated_peer_as neg <> Neighbor.peer_as nb -> rejects (fst r) 2 2)
      /\ (negociated_peer_as neg = Neighbor.peer_as nb ->
          (open_router_id o = 0 -> rejects (fst r) 2 3)
          /\ (open_router_id o <> 0 ->
              (open_router_id o = Neighbor.router_id nb /\ asn o = Neighbor.local_as nb ->
               rejects (fst r) 2 3)
              /\ (~ (open_router_id o = Neighbor.router_id nb
                     /\ asn o = Neighbor.local_as nb) ->
                  (open_hold_time o < 3 -> rejects (fst r) 2 6)
                  /\ (3 <= open_hold_time o ->
                      fst r = Return (Open o)
                      /\ hold_time (snd r)
                         = Some (Z.min (Neighbor.hold_time nb) (open_hold_time o))))))).
Proof.
  intros Hread neg nb r. subst r.
  rewrite (read_open_opened _ _ _ _ Hread), opened_open. fold neg. fold nb.
  split.
  { intros ->. eexists. reflexivity. }
  intros ->. split.
  { intros Hne. apply Z.eqb_neq in Hne. rewrite Hne. eexists. reflexivity. }
  intros Heq. apply Z.eqb_eq in Heq. rewrite Heq. simpl negb. cbv iota. split.
  { intros H0. apply Z.eqb_eq in H0. rewrite H0. eexists. reflexivity. }
  intros H0. apply Z.eqb_neq in H0. rewrite H0. split.
  { intros [Hr Ha]. apply Z.eqb_eq in Hr, Ha. rewrite Hr, Ha. eexists. reflexivity. }
  intros Hnc.
  assert (Hc : (open_router_id o =? Neighbor.router_id nb) && (asn o =? Neighbor.local_as nb) = false).
  { apply not_true_is_false. intros Ht. apply andb_true_iff in Ht.
    destruct Ht as [Hr Ha]. apply Z.eqb_eq in Hr, Ha. now apply Hnc. }
  rewrite Hc. split.
  { intros Hh. apply Z.ltb_lt in Hh. rewrite Hh. eexists. reflexivity. }
  intros Hh. apply Z.ltb_ge in Hh. rewrite Hh. simpl. split; reflexivity.
Qed.

(** C9. [read_open] gives the OPEN to the negotiated state before any check:
    however the call ends, the negotiated state is the one [received] built
    from that OPEN; when the call raises, the session hold time is the one
    the object had before the call, and when it returns, the hold time has
    been assigned. *)
Theorem read_open_records_before_validation
        (fuel : nat) (p p1 : Protocol) (o : OpenMessage) :
  read_message fuel p = (Return (Open o), p1) ->
  let r := read_open fuel p in
  negociated (snd r) = received o (negociated p)
  /\ (forall e, fst r = Raise e ->
                (exists code subcode d, e = Notify code subcode d)
                /\ hold_time (snd r) = hold_time p)
  /\ (forall m, fst r = Return m ->
                m = Open o
                /\ hold_time (snd r)
                   = Some (Z.min (Neighbor.hold_time (neighbor p)) (open_hold_time o)))
  /\ fst r <> Waiting.
Proof.
  intros Hread r. subst r.
  pose proof (read_message_frame fuel p) as Hframe. rewrite Hread in Hframe.
  simpl in Hframe. unfold same_but_connection in Hframe.
  assert (Hneg : negociated p1 = negociated p) by (rewrite Hframe; reflexivity).
  assert (Hhold : hold_time p1 = hold_time p) by (rewrite Hframe; reflexivity).
  assert (Hnb : neighbor p1 = neighbor p) by (rewrite Hframe; reflexivity).
  rewrite (read_open_opened _ _ _ _ Hread), opened_open.
  rewrite Hneg, Hnb.
  repeat match goal with
         | |- context [if ?b then _ else _] => destruct b
         end; simpl;
    (split; [reflexivity|]);
    (split; [intros e He;
             first [discriminate
                   | injection He as <-;
                     split; [do 3 eexists; reflexivity | exact Hhold]]|]);
    (split; [intros m Hm;
             first [discriminate | injection Hm as <-; split; reflexivity]
            | discriminate]).
Qed.

End Framer.

(** ** The handshake on the scripted transport *)

Lemma read_open_validation_order_witness :
  read_message 2 session_open_hold_3
  = (Return (Open (Plain.mk_open 4 65001 3 167772162 false)),
     snd (read_message 2 session_open_hold_3))
  /\ fst (read_open 2 session_open_hold_3)
     = Return (Open (Plain.mk_open 4 65001 3 167772162 false))
  /\ hold_time (snd (read_open 2 session_open_hold_3)) = Some 3.
Proof.
  assert (H : read_message 2 session_open_hold_3
              = (Return (Open (Plain.mk_open 4 65001 3 167772162 false)),
                 snd (read_message 2 session_open_hold_3)))
    by (vm_compute; reflexivity).
  split; [exact H|].
  pose proof (read_open_validation_order 2 session_open_hold_3 _ _ H) as V.
  cbv zeta in V. destruct V as [_ V].
  specialize (V ltac:(vm_compute; reflexivity)). destruct V as [_ V].
  specialize (V ltac:(vm_compute; reflexivity)). destruct V as [_ V].
  specialize (V ltac:(vm_compute; discriminate)). destruct V as [_ V].
  specialize (V ltac:(vm_compute; intros [E _]; discriminate E)). destruct V as [_ V].
  specialize (V ltac:(vm_compute; discriminate)).
  exact V.
Defined.

Lemma read_open_records_before_validation_witness :
  read_message 2 session_open_hold_3
  = (Return (Open (Plain.mk_open 4 65001 3 167772162 false)),
     snd (read_message 2 session_open_hold_3))
  /\ negociated (snd (read_open 2 session_open_hold_3))
     = received (Plain.mk_open 4 65001 3 167772162 false)
                (negociated session_open_hold_3).
Proof.
  assert (H : read_message 2 session_open_hold_3
              = (Return (Open (Plain.mk_open 4 65001 3 167772162 false)),
                 snd (read_message 2 session_open_hold_3)))
    by (vm_compute; reflexivity).
  split; [exact H|].
  exact (proj1 (read_open_records_before_validation 2 session_open_hold_3 _ _ H)).
Defined.

(** The scenario of the hold time 2: the OPEN is refused with Notify(2,6),
    and the negotiated state holds it all the same. *)
Example read_open_hold_time_2 :
  let p := Plain.protocol
             (Scripted.make [Plain.header x00 x1d x01;
                             [x04; xfd; xe9; x00; x02; x0a; x00; x00; x02; x00]] []) in
  fst (read_open 2 p)
  = Raise (Notify 2 6 (Diagnostic "Hold Time is invalid (%d)" [2]))
  /\ Plain.received_open (negociated (snd (read_open 2 p)))
     = Some (Plain.mk_open 4 65001 2 167772162 false)
  /\ hold_time (snd (read_open 2 p)) = None.
Proof. vm_compute. repeat split. Qed.

(** C2. A KEEPALIVE header announcing the length 18: [read_message] raises
    Notify(1,2) after the one read of 19 bytes, and the rejection is built
    without the length bytes. *)
Theorem read_message_length_18 :
  let p := Plain.protocol (Scripted.make [Plain.header x00 x12 x04] []) in
  fst (read_message 1 p) = Raise (Notify 1 2 NoData)
  /\ Scripted.asked (connection (snd (read_message 1 p))) = [19].
Proof. vm_compute. split; reflexivity. Qed.

(** C3. An OPEN header announcing the length 10, under the minimum 29 of its
    type: [read_message] raises Notify(1,2) built without the length bytes,
    as the range check comes first; with the length 28 the two length bytes
    are the data of the rejection. *)
Theorem read_message_open_length_10 :
  let p := Plain.protocol (Scripted.make [Plain.header x00 x0a x01] []) in
  let q := Plain.protocol (Scripted.make [Plain.header x00 x1c x01] []) in
  bad_type_length Open_TYPE 10 = true
  /\ fst (read_message 1 p) = Raise (Notify 1 2 NoData)
  /\ fst (read_message 1 q) = Raise (Notify 1 2 (Raw [x00; x1c])).
Proof. vm_compute. repeat split. Qed.

(** * Properties of the keepalive timers *)

Section Keepalive.

Context {K : Collaborators} {C : Type} {T : Transport C}.
Local Abbreviation Protocol := (@Protocol K C).

(** [int(x) <= 0] exactly when [x < 1]. *)
Lemma int_of_nonpositive (x : Q) : int_of x <= 0 <-> (x < 1)%Q.
Proof.
  destruct x as [n d]. unfold int_of, Qlt. cbn [Qnum Qden].
  change (Qnum 1) with 1. change (Zpos (Qden 1)) with 1.
  rewrite Z.mul_1_r, Z.mul_1_l.
  split.
  - intros Hq. destruct (Z.lt_ge_cases n (Zpos d)) as [Hlt|Hge]; [exact Hlt|].
    assert (0 < n ÷ Zpos d) by (apply Z.quot_str_pos; lia). lia.
  - intros Hlt. destruct (Z.lt_ge_cases n 0) as [Hneg|Hpos].
    + assert (0 <= (- n) ÷ Zpos d) by (apply Z.quot_pos; lia).
      rewrite Z.quot_opp_l in H by lia. lia.
    + rewrite Z.quot_small by lia. lia.
Qed.

(** C8. With the hold time negotiated, [check_keepalive] raises Notify(4,0)
    exactly when less than one second is left, that is when
    [int(last_read + hold_time - now) <= 0]; otherwise it returns that whole
    number of seconds, which is positive. *)
Theorem check_keepalive_expiry (now : Q) (p : Protocol) (h : Z) :
  hold_time p = Some h ->
  let remaining := (last_read (connection p) + inject_Z h - now)%Q in
  ((remaining < 1)%Q ->
   check_keepalive now p = (Raise (Notify 4 0 NoData), p))
  /\ (~ (remaining < 1)%Q ->
      check_keepalive now p = (Return (int_of remaining), p)
      /\ 0 < int_of remaining).
Proof.
  intros Hh remaining. unfold check_keepalive, bind, get, raise, ret.
  rewrite Hh. fold remaining.
  pose proof (int_of_nonpositive remaining) as Hint.
  split.
  - intros Hlt. apply Hint in Hlt. apply Z.leb_le in Hlt. now rewrite Hlt.
  - intros Hge. assert (Hpos : 0 < int_of remaining).
    { destruct (Z.lt_ge_cases 0 (int_of remaining)) as [Hp|Hn]; [exact Hp|].
      exfalso. apply Hge. now apply Hint. }
    split; [|exact Hpos].
    replace (int_of remaining <=? 0) with false; [reflexivity|].
    symmetry. apply Z.leb_gt. exact Hpos.
Qed.

(** C10. [new_keepalive(False)] is [new_keepalive(None)]: same writes, same
    buffering, same result, same log; and no call of [new_keepalive] logs
    '>> KEEPALIVE (no more UPDATE and no EOR)'. *)
Theorem new_keepalive_force_false (now : Q) (p : Protocol) :
  new_keepalive ForceFalse now p = new_keepalive ForceNone now p
  /\ forall force,
      exists lines, logger (snd (new_keepalive force now p)) = logger p ++ lines
                    /\ ~ In LogKeepaliveNoMoreUpdate lines.
Proof.
  split; [reflexivity|].
  intros force. unfold new_keepalive, bind, get, raise, ret, update, on_connection.
  destruct (hold_time p) as [h|].
  2:{ exists []. split; [now rewrite app_nil_r | intros []]. }
  assert (Hone : forall l : LogLine, l <> LogKeepaliveNoMoreUpdate ->
                 ~ In LogKeepaliveNoMoreUpdate [l])
    by (intros l Hl [E|[]]; now apply Hl).
  destruct (write KeepAlive_message (connection p)) as [written c] eqn:Hw.
  destruct force; cbn [force_truth]; cbv beta iota;
    try destruct (int_of _ <=? 0); cbv beta; rewrite ?Hw;
    try (exists []; split; [now rewrite app_nil_r | intros []]);
    destruct written; simpl;
    eexists [_]; (split; [reflexivity | apply Hone; discriminate]).
Qed.

End Keepalive.

Lemma check_keepalive_expiry_witness :
  hold_time (set_hold_time (Some 3) (Plain.protocol (Scripted.make [] []))) = Some 3
  /\ check_keepalive (5 # 2) (set_hold_time (Some 3) (Plain.protocol (Scripted.make [] [])))
     = (Raise (Notify 4 0 NoData),
        set_hold_time (Some 3) (Plain.protocol (Scripted.make [] []))).
Proof.
  split; [reflexivity|].
  apply (proj1 (check_keepalive_expiry (5 # 2)
                  (set_hold_time (Some 3) (Plain.protocol (Scripted.make [] [])))
                  3 eq_refl)).
  vm_compute. reflexivity.
Defined.

(** C8, as stated, fails half a second before the expiry: with the last read
    at 0, the hold time 3 and the clock at 2.5, [last_read + hold_time] is
    after [now], and [check_keepalive] raises Notify(4,0) all the same. *)
Lemma check_keepalive_half_second_left :
  let p := set_hold_time (Some 3) (Plain.protocol (Scripted.make [] [])) in
  fst (check_keepalive (5 # 2) p) = Raise (Notify 4 0 NoData)
  /\ ~ (last_read (connection p) + inject_Z 3 <= 5 # 2)%Q.
Proof.
  split; [vm_compute; reflexivity|].
  vm_compute. intros H. apply H. reflexivity.
Qed.

(** * Properties of the outbound pump *)

Section Pump.

Context {K : Collaborators} {C : Type} {T : Transport C}.
Local Abbreviation Protocol := (@Protocol K C).

Variable name : string.

Lemma logs_messages (lines : list LogLine) (p : Protocol) :
  _messages (logs lines p) = _messages p.
Proof.
  revert p. induction lines as [|l lines IH]; intros p; [reflexivity|].
  unfold logs in *. simpl. now rewrite IH.
Qed.

Lemma logs_frozen (lines : list LogLine) (p : Protocol) :
  _frozen (logs lines p) = _frozen p.
Proof.
  revert p. induction lines as [|l lines IH]; intros p; [reflexivity|].
  unfold logs in *. simpl. now rewrite IH.
Qed.

(** Once the sending has stopped, every chunk goes to the backlog, a zero is
    yielded for each, and the connection is not used. *)
Lemma direct_deferred (chunks : list (Z * bytes)) :
  forall p : Protocol,
    fst (direct name false chunks p) = repeat 0 (List.length chunks)
    /\ _messages (snd (direct name false chunks p))
       = _messages p ++ map (entry name) chunks
    /\ connection (snd (direct name false chunks p)) = connection p
    /\ _frozen (snd (direct name false chunks p)) = _frozen p.
Proof.
  induction chunks as [|[number update] rest IH]; intros p.
  - simpl. now rewrite app_nil_r.
  - cbn [direct].
    specialize (IH (append (number, name, update) (log (LogBufferingRest name number) p))).
    destruct (direct name false rest _) as [ys p1]. simpl in *.
    destruct IH as (Hys & Hms & Hc & Hf).
    rewrite Hys, Hms, Hc, Hf, <- app_assoc. repeat split.
Qed.

(** The chunks written until the first failed write yield their counts; the
    failing chunk and the later ones go to the backlog. *)
Lemma direct_first_failure (pre : list (Z * bytes)) number update post :
  forall (p : Protocol) c1 c2,
    written_all pre (connection p) = Some c1 ->
    write update c1 = (false, c2) ->
    fst (direct name true (pre ++ (number, update) :: post) p)
    = map fst pre ++ repeat 0 (List.length post)
    /\ _messages (snd (direct name true (pre ++ (number, update) :: post) p))
       = _messages p ++ map (entry name) ((number, update) :: post)
    /\ connection (snd (direct name true (pre ++ (number, update) :: post) p)) = c2.
Proof.
  induction pre as [|[n u] pre IH]; intros p c1 c2 Hpre Hfail.
  - simpl in Hpre. injection Hpre as <-. cbn [app direct]. rewrite Hfail.
    destruct (direct_deferred post
                (append (number, name, update)
                        (log (LogCouldNotSend number name) (set_connection c2 p))))
      as (Hys & Hms & Hc & _).
    rewrite Hys, Hms, Hc. simpl. rewrite <- app_assoc. repeat split.
  - cbn [written_all] in Hpre. cbn [app direct].
    destruct (write u (connection p)) as [[|] c'] eqn:Hw; [|discriminate].
    specialize (IH (log (LogSent n name) (set_connection c' p)) c1 c2 Hpre Hfail).
    destruct (direct name true _ _) as [ys p1]. simpl in *.
    destruct IH as (Hys & Hms & Hc). rewrite Hys, Hms, Hc. repeat split.
Qed.

(** C5. When [_announce] starts with an empty backlog and a direct write
    fails, the chunks written before it yield their counts, which are
    positive; the chunk whose write failed and every later chunk are
    appended to the backlog, in order, and no further write is made; a zero
    is yielded for each chunk after the one whose write failed. *)
Theorem announce_first_failed_write
        (generator : list bytes) (t1 t2 t3 : Q) (p : Protocol)
        (pre : list (Z * bytes)) (number : Z) (update : bytes)
        (post : list (Z * bytes)) (e : option Exception) (c1 c2 : C) :
  _messages p = [] ->
  chunked generator (message_size p) = (pre ++ (number, update) :: post, e) ->
  written_all pre (connection p) = Some c1 ->
  write update c1 = (false, c2) ->
  let r := _announce name generator t1 t2 t3 p in
  fst (fst r) = map fst pre ++ repeat 0 (List.length post)
  /\ Forall (fun n => 0 < n) (map fst pre)
  /\ _messages (snd r) = map (entry name) ((number, update) :: post)
  /\ connection (snd r) = c2
  /\ snd (fst r) = ended e.
Proof.
  intros Hempty Hchunks Hpre Hfail r. subst r. unfold _announce.
  rewrite Hchunks, Hempty.
  destruct (direct_first_failure pre number update post p c1 c2 Hpre Hfail)
    as (Hys & Hms & Hc).
  destruct (direct name true _ p) as [ys p1]. simpl in *.
  rewrite Hempty in Hms. repeat split; try assumption.
  assert (Hpos : Forall (fun c => 0 < fst c) (pre ++ (number, update) :: post)).
  { unfold chunked in Hchunks.
    eapply chunked_loop_positive; [ | | | exact Hchunks]; try constructor; try lia.
    congruence. }
  apply Forall_app in Hpos. destruct Hpos as [Hpos _].
  apply Forall_map. exact Hpos.
Qed.

(** [stall_check] by cases. *)
Lemma stall_check_cases (t1 t2 t3 : Q) (p : Protocol) :
  stall_check t1 t2 t3 p =
  match _messages p with
  | [] => (Return tt, p)
  | _ :: _ =>
      let p1 := if truthy (_frozen p) then p else set_frozen t1 p in
      match hold_time p with
      | None => (Raise TypeError, p1)
      | Some h =>
          if truthy (_frozen p1) && Qlt_bool (_frozen p1 + inject_Z h) t2 then
            (Raise (Failure (PeerNotReading (Neighbor.peer_as (neighbor p)))), p1)
          else
            let p2 := log (LogUnableToSend (t3 - _frozen p1) h) p1 in
            let nb := Z.of_nat (List.length (_messages p)) in
            if nb >? MAX_BACKLOG then
              (Raise (Failure (OverBacklog MAX_BACKLOG (Neighbor.peer_as (neighbor p)))), p2)
            else (Return tt, log (LogBacklog nb MAX_BACKLOG) p2)
      end
  end.
Proof.
  unfold stall_check, bind, get, update, raise, ret. cbv beta.
  destruct (_messages p) as [|m ms]; [reflexivity|].
  destruct (truthy (_frozen p)); cbn [negb fst snd]; cbv beta zeta;
    cbn [hold_time set_frozen _frozen neighbor];
    (destruct (hold_time p) as [h|]; [|reflexivity]);
    destruct (truthy _ && Qlt_bool _ _); try reflexivity;
    destruct (_ >? MAX_BACKLOG); reflexivity.
Qed.

(** What [stall_check] leaves: the backlog and the connection as they were,
    the stall clock set to [t1] if the backlog is not empty and the clock
    was unset. *)
Lemma stall_check_effect (t1 t2 t3 : Q) (p : Protocol) :
  _messages (snd (stall_check t1 t2 t3 p)) = _messages p
  /\ connection (snd (stall_check t1 t2 t3 p)) = connection p
  /\ _frozen (snd (stall_check t1 t2 t3 p))
     = match _messages p with
       | [] => _frozen p
       | _ => if truthy (_frozen p) then _frozen p else t1
       end.
Proof.
  rewrite stall_check_cases.
  destruct (_messages p) as [|m ms] eqn:Hms; [cbn; now rewrite Hms|].
  cbv zeta.
  destruct (truthy (_frozen p)) eqn:Ht;
    (destruct (hold_time p) as [h|]; [|cbn; now rewrite ?Hms]);
    destruct (truthy _ && Qlt_bool _ _); try (cbn; now rewrite ?Hms);
    destruct (_ >? MAX_BACKLOG); cbn; now rewrite ?Hms.
Qed.

(** C6. With more than 15000 entries in the backlog, [_backlog] raises
    before its loop: nothing is yielded, no entry leaves the backlog, the
    connection is not used; with a session hold time, what is raised is a
    [Failure], 'peer not reading' if the stall is over the hold time and
    'over 15000 chunked routes buffered' if not. *)
Theorem backlog_ceiling (echo : Z -> list LogLine) (t1 t2 t3 : Q) (p : Protocol) :
  MAX_BACKLOG < Z.of_nat (List.length (_messages p)) ->
  let r := _backlog echo t1 t2 t3 p in
  fst (fst r) = []
  /\ _messages (snd r) = _messages p
  /\ connection (snd r) = connection p
  /\ exists e, snd (fst r) = Raise e
               /\ (hold_time p <> None ->
                   e = Failure (PeerNotReading (Neighbor.peer_as (neighbor p)))
                   \/ e = Failure (OverBacklog 15000 (Neighbor.peer_as (neighbor p)))).
Proof.
  intros Hover r. subst r. unfold _backlog.
  destruct (stall_check_effect t1 t2 t3 p) as (Hms & Hc & _).
  assert (Hraise : exists e, fst (stall_check t1 t2 t3 p) = Raise e
            /\ (hold_time p <> None ->
                e = Failure (PeerNotReading (Neighbor.peer_as (neighbor p)))
                \/ e = Failure (OverBacklog 15000 (Neighbor.peer_as (neighbor p))))).
  { rewrite stall_check_cases.
    destruct (_messages p) as [|m ms] eqn:Hp;
      [simpl in Hover; unfold MAX_BACKLOG in Hover; lia|].
    assert (Hgt : (Z.of_nat (List.length (m :: ms)) >? MAX_BACKLOG) = true)
      by (rewrite Z.gtb_ltb; apply Z.ltb_lt; exact Hover).
    cbv zeta. rewrite Hgt.
    destruct (hold_time p) as [h|];
      [|eexists; split; [reflexivity | intros Hn; now contradiction Hn]].
    destruct (truthy _ && Qlt_bool _ _);
      eexists; (split; [reflexivity | intros _; auto]). }
  destruct (stall_check t1 t2 t3 p) as [[u|e|] p1]; simpl in *;
    destruct Hraise as (e' & He & Hwhy); try discriminate.
  injection He as <-. repeat split; try assumption. now exists e.
Qed.

(** What the loop of [_backlog] leaves of the stall clock. *)
Lemma drain_stall_clock (echo : Z -> list LogLine) (ms : list Entry) :
  forall p : Protocol,
    (fst (drain echo ms p) = [] ->
     _frozen (snd (drain echo ms p)) = _frozen p
     /\ _messages (snd (drain echo ms p)) = _messages p)
    /\ (fst (drain echo ms p) <> [] -> _frozen (snd (drain echo ms p)) = 0%Q).
Proof.
  induction ms as [|[[number nm] update] rest IH]; intros p.
  - simpl. split; [auto | congruence].
  - cbn [drain]. destruct (write update (connection p)) as [[|] c]; cbn [negb].
    + specialize (IH (logs (echo number) (set_frozen 0%Q (set_messages rest (set_connection c p))))).
      destruct (drain echo rest _) as [ys p4]. cbn [fst snd] in *.
      split; [discriminate|]. intros _.
      destruct ys as [|y ys].
      * destruct IH as [IH _]. destruct (IH eq_refl) as [Hf _].
        rewrite Hf, logs_frozen. reflexivity.
      * destruct IH as [_ IH]. apply IH. discriminate.
    + cbn. split; [auto | congruence].
Qed.

(** C7. The stall clock: [_backlog] sets it, to the time it reads, when it
    finds the backlog not empty and the clock unset; while no write succeeds
    a drain leaves the clock and the backlog as they are; every entry
    written by the drain resets the clock, whether entries remain or not;
    and a keepalive that [new_keepalive] writes resets it too, while one it
    has to buffer leaves it. *)
Theorem stall_clock_policy
        (echo : Z -> list LogLine) (t1 t2 t3 now : Q) (force : Force) (p : Protocol) :
  let r := _backlog echo t1 t2 t3 p in
  let k := new_keepalive force now p in
  (_messages p <> [] -> fst (fst r) = [] ->
   _frozen (snd r) = (if truthy (_frozen p) then _frozen p else t1)
   /\ _messages (snd r) = _messages p)
  /\ (fst (fst r) <> [] -> _frozen (snd r) = 0%Q)
  /\ (forall left, fst k = Return (left, Some KeepAlive) ->
      (fst (write KeepAlive_message (connection p)) = true ->
       _frozen (snd k) = 0%Q /\ _messages (snd k) = _messages p)
      /\ (fst (write KeepAlive_message (connection p)) = false ->
          _frozen (snd k) = _frozen p
          /\ _messages (snd k)
             = _messages p ++ [(1, "KEEPALIVE"%string, KeepAlive_message)])).
Proof.
  intros r k. subst r k. split; [|split].
  - intros Hne Hys. unfold _backlog in *.
    destruct (stall_check_effect t1 t2 t3 p) as (Hms & _ & Hf).
    destruct (_messages p) as [|m ms] eqn:Hp; [congruence|].
    destruct (stall_check t1 t2 t3 p) as [[u|e|] p1]; cbn [fst snd] in *;
      try (split; assumption).
    pose proof (drain_stall_clock echo (_messages p1) p1) as [Hd _].
    destruct (drain echo (_messages p1) p1) as [ys p2]. cbn [fst snd] in *.
    destruct (Hd Hys) as [Hf2 Hm2]. rewrite Hf2, Hm2. split; assumption.
  - intros Hys. unfold _backlog in *.
    destruct (stall_check t1 t2 t3 p) as [[u|e|] p1]; cbn [fst snd] in *;
      try congruence.
    pose proof (drain_stall_clock echo (_messages p1) p1) as [_ Hd].
    destruct (drain echo (_messages p1) p1) as [ys p2]. cbn [fst snd] in *.
    now apply Hd.
  - intros left. unfold new_keepalive, bind, get, raise, ret, update, on_connection.
    destruct (hold_time p) as [h|]; [|discriminate].
    destruct (write KeepAlive_message (connection p)) as [written c] eqn:Hw.
    destruct force; cbn [force_truth]; cbv beta iota;
      try destruct (int_of _ <=? 0); cbv beta; rewrite ?Hw; try discriminate;
      intros _; destruct written; cbn; (split; [intros E | intros E]);
      try discriminate; split; reflexivity.
Qed.

End Pump.

(** ** The pump on the scripted transport *)

Lemma announce_first_failed_write_witness :
  _messages (established [false] [] 0%Q 2) = []
  /\ fst (fst (_announce "UPDATE" [[x01; x02]; [x03]] 0 0 0
                         (established [false] [] 0%Q 2))) = [0]
  /\ _messages (snd (_announce "UPDATE" [[x01; x02]; [x03]] 0 0 0
                               (established [false] [] 0%Q 2)))
     = [(1, "UPDATE"%string, [x01; x02]); (1, "UPDATE"%string, [x03])].
Proof.
  split; [reflexivity|].
  pose proof (announce_first_failed_write "UPDATE" [[x01; x02]; [x03]] 0 0 0
                (established [false] [] 0%Q 2)
                [] 1 [x01; x02] [(1, [x03])] None
                (Scripted.make [] [false]) (Scripted.make [] [])
                eq_refl eq_refl eq_refl eq_refl) as W.
  cbv zeta in W. destruct W as (Hys & _ & Hms & _).
  split; [exact Hys | exact Hms].
Defined.

(** C5, as stated, fails on the chunk whose write fails: it goes to the
    backlog and nothing is yielded for it.  With one chunk nothing at all is
    yielded; with two, one zero. *)
Lemma announce_failed_chunk_yields_nothing :
  (let r := _announce "UPDATE" [[x01]] 0 0 0 (established [false] [] 0%Q 2) in
   fst (fst r) = []
   /\ _messages (snd r) = [(1, "UPDATE"%string, [x01])])
  /\ (let r := _announce "UPDATE" [[x01; x02]; [x03]] 0 0 0
                         (established [false] [] 0%Q 2) in
      fst (fst r) = [0]
      /\ List.length (_messages (snd r)) = 2%nat).
Proof. vm_compute. repeat split. Qed.

Lemma backlog_ceiling_witness :
  MAX_BACKLOG < Z.of_nat (List.length (_messages over_queued))
  /\ fst (fst (_backlog (fun _ => []) 110 110 110 over_queued)) = []
  /\ _messages (snd (_backlog (fun _ => []) 110 110 110 over_queued))
     = _messages over_queued.
Proof.
  assert (H : MAX_BACKLOG < Z.of_nat (List.length (_messages over_queued)))
    by (vm_compute; reflexivity).
  split; [exact H|].
  pose proof (backlog_ceiling (fun _ => []) 110 110 110 over_queued H) as W.
  cbv zeta in W. destruct W as (Hys & Hms & _).
  split; [exact Hys | exact Hms].
Defined.

Lemma stall_clock_policy_witness :
  fst (fst (_backlog (fun _ => []) 110 110 110 two_queued)) <> []
  /\ _frozen (snd (_backlog (fun _ => []) 110 110 110 two_queued)) = 0%Q.
Proof.
  assert (H : fst (fst (_backlog (fun _ => []) 110 110 110 two_queued)) <> [])
    by (vm_compute; discriminate).
  split; [exact H|].
  exact (proj1 (proj2 (stall_clock_policy (fun _ => []) 110 110 110 0 ForceNone
                                          two_queued)) H).
Defined.

(** C7, as stated, fails twice.  A drain that writes the first of two
    entries and not the second leaves the backlog not empty and the stall
    clock, which was at 100, unset.  And a keepalive that cannot be written
    makes the empty backlog non-empty without setting the clock. *)
Lemma stall_clock_reset_with_backlog_left :
  (let r := _backlog (fun _ => []) 110 110 110 two_queued in
   _frozen two_queued = 100%Q
   /\ fst (fst r) = [1]
   /\ _messages (snd r) = [(1, "UPDATE"%string, [x02])]
   /\ _frozen (snd r) = 0%Q)
  /\ (let k := new_keepalive ForceTrue 0 (established [false] [] 0%Q (4096 - 19)) in
      _messages (snd k) = [(1, "KEEPALIVE"%string, KeepAlive_message)]
      /\ _frozen (snd k) = 0%Q).
Proof. vm_compute. repeat split. Qed.

(** * Further properties of the chunk producer *)

Section ChunkShape.

Variable size : Z.

Lemma counts_snoc (cs : list (Z * bytes)) (n : Z) (c : bytes) :
  counts (cs ++ [(n, c)]) = counts cs + n.
Proof.
  unfold counts. induction cs as [|a cs IH]; simpl in *; [lia|].
  rewrite IH. lia.
Qed.

Lemma counts_rev (cs : list (Z * bytes)) : counts (rev cs) = counts cs.
Proof.
  induction cs as [|[n c] cs IH]; [reflexivity|].
  simpl rev. rewrite counts_snoc, IH. unfold counts. simpl. lia.
Qed.

Lemma len_zero (a : bytes) : len a = 0 -> a = [].
Proof. destruct a; [reflexivity | unfold len; simpl; lia]. Qed.

(** The counts add up to the fragments taken, unless nothing but empty
    fragments came, in which case nothing is yielded. *)
Lemma chunked_loop_counts (generator : list bytes) :
  forall chunk number out cs,
    Forall (fun d => len d <= size) generator ->
    (chunk <> [] -> len chunk <= size) ->
    (chunk = [] -> out = []) ->
    chunked_loop generator size chunk number out = (cs, None) ->
    (chunk ++ List.concat generator <> [] ->
     counts cs = counts out + number + Z.of_nat (List.length generator))
    /\ (chunk ++ List.concat generator = [] -> cs = []).
Proof.
  induction generator as [|data rest IH]; intros chunk number out cs Hall Hc Hout Hrun.
  - cbn [chunked_loop] in Hrun. simpl. rewrite app_nil_r.
    destruct chunk as [|b chunk'].
    + pair_eq Hrun. rewrite (Hout eq_refl). split; [congruence | reflexivity].
    + pair_eq Hrun. split; [|discriminate]. intros _.
      simpl rev. rewrite counts_snoc, counts_rev. lia.
  - cbn [chunked_loop] in Hrun. inversion Hall as [|? ? Hd Hrest]; subst.
    rewrite (proj2 (gtb_false _ _) Hd) in Hrun.
    destruct (len chunk + len data <=? size) eqn:Hfit.
    + apply Z.leb_le in Hfit.
      destruct (IH (chunk ++ data) (number + 1) out cs Hrest) as [Hsum Hnil];
        try assumption.
      * intros _. rewrite len_app. exact Hfit.
      * intros E. apply app_eq_nil in E. destruct E as [E _]. now apply Hout.
      * simpl List.concat. rewrite app_assoc. split; [|exact Hnil].
        intros Hne. rewrite (Hsum Hne). simpl List.length. lia.
    + apply Z.leb_gt in Hfit.
      assert (Hchunk : chunk <> []).
      { intros ->. change (len []) with 0 in Hfit. lia. }
      assert (Hdata : data <> []).
      { intros ->. change (len []) with 0 in Hfit. specialize (Hc Hchunk). lia. }
      destruct (IH data 1 ((number, chunk) :: out) cs Hrest) as [Hsum _];
        try assumption.
      * intros _. exact Hd.
      * intros E. now contradiction Hdata.
      * split.
        -- intros _. rewrite Hsum.
           ++ unfold counts. simpl. lia.
           ++ destruct data; [now contradiction Hdata | discriminate].
        -- intros E. apply app_eq_nil in E. destruct E as [E _]. now contradiction Hchunk.
Qed.

(** No empty chunk is yielded. *)
Lemma chunked_loop_nonempty (generator : list bytes) :
  forall chunk number out cs e,
    Forall (fun c => snd c <> []) out ->
    chunked_loop generator size chunk number out = (cs, e) ->
    Forall (fun c => snd c <> []) cs.
Proof.
  induction generator as [|data rest IH]; intros chunk number out cs e Hout Hrun.
  - cbn [chunked_loop] in Hrun. destruct chunk as [|b chunk'].
    + pair_eq Hrun. now apply Forall_rev.
    + pair_eq Hrun. apply Forall_rev. constructor; [discriminate | exact Hout].
  - cbn [chunked_loop] in Hrun.
    destruct (len data >? size) eqn:Hbig.
    + pair_eq Hrun. now apply Forall_rev.
    + destruct (len chunk + len data <=? size) eqn:Hfit.
      * eapply IH; [exact Hout | exact Hrun].
      * eapply IH; [|exact Hrun]. constructor; [|exact Hout].
        simpl. intros ->. apply Z.leb_gt in Hfit. apply gtb_false in Hbig.
        change (len []) with 0 in Hfit. lia.
Qed.

(** X1. When every fragment fits, each chunk yielded by [chunked] is not
    empty and counts at least one fragment; the counts add up to the number
    of fragments as soon as one fragment is not empty, and nothing at all is
    yielded when every fragment is the empty string. *)
Theorem chunked_counts (generator : list bytes) (cs : list (Z * bytes)) :
  Forall (fun d => len d <= size) generator ->
  chunked generator size = (cs, None) ->
  Forall (fun c => snd c <> [] /\ 0 < fst c) cs
  /\ (List.concat generator <> [] -> counts cs = Z.of_nat (List.length generator))
  /\ (List.concat generator = [] -> cs = []).
Proof.
  intros Hall Hrun. unfold chunked in Hrun. split.
  - assert (Hne : Forall (fun c : Z * bytes => snd c <> []) cs)
      by (eapply chunked_loop_nonempty; [constructor | exact Hrun]).
    assert (Hpos : Forall (fun c : Z * bytes => 0 < fst c) cs).
    { eapply chunked_loop_positive; [ | | | exact Hrun];
        [congruence | lia | constructor]. }
    rewrite Forall_forall in *. intros c Hin. split; auto.
  - destruct (chunked_loop_counts generator [] 0 [] cs Hall) as [Hsum Hnil];
      try assumption; try congruence.
    split; [|exact Hnil]. intros Hne. rewrite (Hsum Hne). unfold counts. simpl. lia.
Qed.

Lemma packed_snoc (cs : list (Z * bytes)) (x : Z * bytes) :
  packed size cs ->
  match rev cs with
  | [] => True
  | y :: _ => size < len (snd y) + len (snd x)
  end ->
  packed size (cs ++ [x]).
Proof.
  induction cs as [|a cs IH]; intros Hp Hlast.
  - simpl. auto.
  - destruct Hp as [Ha Hp]. destruct cs as [|b cs'].
    + simpl in *. auto.
    + change ((a :: b :: cs') ++ [x]) with (a :: ((b :: cs') ++ [x])).
      split; [exact Ha|]. apply IH; [exact Hp|].
      simpl rev in Hlast. simpl rev.
      destruct (rev cs' ++ [b]) as [|y l] eqn:E.
      * now destruct (rev cs').
      * exact Hlast.
Qed.

(** The chunks yielded so far are packed, and the running chunk would not
    have fitted in the last of them. *)
Lemma chunked_loop_packed (generator : list bytes) :
  forall chunk number out cs e,
    packed size (rev out) ->
    match out with
    | [] => True
    | y :: _ => size < len (snd y) + len chunk
    end ->
    chunked_loop generator size chunk number out = (cs, e) ->
    packed size cs.
Proof.
  induction generator as [|data rest IH]; intros chunk number out cs e Hp Hlast Hrun.
  - cbn [chunked_loop] in Hrun. destruct chunk as [|b chunk'].
    + pair_eq Hrun. exact Hp.
    + pair_eq Hrun. simpl rev. apply packed_snoc; [exact Hp|].
      rewrite rev_involutive. destruct out as [|y out']; [exact I|].
      simpl. exact Hlast.
  - cbn [chunked_loop] in Hrun.
    destruct (len data >? size) eqn:Hbig.
    + pair_eq Hrun. exact Hp.
    + destruct (len chunk + len data <=? size) eqn:Hfit.
      * eapply IH; [exact Hp | | exact Hrun].
        destruct out as [|y out']; [exact I|].
        rewrite len_app. pose proof (len_nonneg data). lia.
      * apply Z.leb_gt in Hfit.
        eapply IH; [ | | exact Hrun].
        -- simpl rev. apply packed_snoc; [exact Hp|].
           rewrite rev_involutive. destruct out as [|y out']; [exact I|].
           simpl. exact Hlast.
        -- simpl. lia.
Qed.

(** X2. [chunked] packs greedily: whatever the fragments, and also when it
    ends with the failure, no two neighbouring chunks it yields would have
    fitted together within [size]. *)
Theorem chunked_packed (generator : list bytes) (cs : list (Z * bytes))
        (e : option Exception) :
  chunked generator size = (cs, e) -> packed size cs.
Proof.
  intros Hrun. unfold chunked in Hrun.
  eapply chunked_loop_packed; [ | | exact Hrun]; exact I.
Qed.

(** Fragments that fit together make one chunk. *)
Lemma chunked_loop_single (generator : list bytes) :
  forall chunk number out,
    len chunk + len (List.concat generator) <= size ->
    chunked_loop generator size chunk number out
    = (rev out ++ match chunk ++ List.concat generator with
                  | [] => []
                  | all => [(number + Z.of_nat (List.length generator), all)]
                  end, None).
Proof.
  induction generator as [|data rest IH]; intros chunk number out Hfit.
  - cbn [chunked_loop]. simpl List.concat. rewrite app_nil_r.
    destruct chunk as [|b chunk'].
    + now rewrite app_nil_r.
    + simpl. now rewrite Z.add_0_r.
  - cbn [chunked_loop]. simpl List.concat in *. rewrite len_app in Hfit.
    pose proof (len_nonneg chunk). pose proof (len_nonneg data).
    pose proof (len_nonneg (List.concat rest)).
    rewrite (proj2 (gtb_false (len data) size)) by lia.
    replace (len chunk + len data <=? size) with true
      by (symmetry; apply Z.leb_le; lia).
    rewrite IH by (rewrite len_app; lia).
    rewrite <- app_assoc.
    replace (number + 1 + Z.of_nat (List.length rest))
      with (number + Z.of_nat (List.length (data :: rest)))
      by (simpl List.length; lia).
    reflexivity.
Qed.

(** X3. Fragments whose bytes fit together within [size], not all of them
    empty, come out of [chunked] as one chunk: all the bytes, counted as all
    the fragments. *)
Theorem chunked_single (generator : list bytes) :
  len (List.concat generator) <= size ->
  List.concat generator <> [] ->
  chunked generator size
  = ([(Z.of_nat (List.length generator), List.concat generator)], None).
Proof.
  intros Hfit Hne. unfold chunked.
  rewrite chunked_loop_single by (change (len []) with 0; lia).
  simpl. destruct (List.concat generator); [now contradiction Hne | reflexivity].
Qed.

End ChunkShape.

(** * Further properties of the framer and of the handshake driver *)

Section Envelope.

Context {K : Collaborators} {C : Type} {T : Transport C}.
Local Abbreviation Protocol := (@Protocol K C).

Lemma bytes_eqb_true (a : bytes) : forall b, bytes_eqb a b = true -> a = b.
Proof.
  induction a as [|x a IH]; intros [|y b] H; simpl in H; try discriminate.
  - reflexivity.
  - apply andb_true_iff in H. destruct H as [Hx Hab].
    apply Byte.byte_dec_bl in Hx. subst y. f_equal. now apply IH.
Qed.



(** X4. The accumulation loop of [read_message] returns exactly the bytes
    it was asked for, added to what it had, however the transport cuts them
    up; and the only exception it raises is the failure 'The TCP connection
    is closed'. *)
Theorem receive_outcome (fuel : nat) :
  forall (length : Z) (data : bytes) (c : C),
    (forall d c', receive fuel length data c = (Return d, c') ->
                  exists delta, d = data ++ delta /\ len delta = length)
    /\ (forall e c', receive fuel length data c = (Raise e, c') ->
                     e = Failure ConnectionClosed).
Proof.
  induction fuel as [|fuel IH]; intros length data c.
  - cbn [receive]. destruct (length =? 0) eqn:Hz.
    + apply Z.eqb_eq in Hz. split.
      * intros d c' H. pair_eq H. injection H0 as <-. exists [].
        rewrite app_nil_r. split; [reflexivity | now subst].
      * intros e c' H. pair_eq H.
    + split; intros ? ? H; pair_eq H.
  - cbn [receive]. destruct (length =? 0) eqn:Hz.
    + apply Z.eqb_eq in Hz. split.
      * intros d c' H. pair_eq H. injection H0 as <-. exists [].
        rewrite app_nil_r. split; [reflexivity | now subst].
      * intros e c' H. pair_eq H.
    + destruct (pending None c) as [ready c1]. destruct ready.
      * destruct (read length c1) as [delta c2]. destruct delta as [|b delta].
        -- split.
           ++ intros d c' H. pair_eq H.
           ++ intros e c' H. pair_eq H. now injection H0 as <-.
        -- destruct (IH (length - len (b :: delta)) (data ++ b :: delta) c2)
             as [IHr IHe].
           split.
           ++ intros d c' H. destruct (IHr d c' H) as (more & -> & Hlen).
              exists ((b :: delta) ++ more). split.
              ** now rewrite app_assoc.
              ** rewrite len_app. lia.
           ++ exact IHe.
      * apply IH.
Qed.


(** X5. A header whose marker field is not the BGP marker is refused with
    Notify(1,1) as soon as its 19 bytes are in: the connection is left as
    the header read left it. *)
Theorem read_message_bad_marker (fuel : nat) (p : Protocol) (c0 c1 : C) (data : bytes) :
  pending (Some true) (connection p) = (true, c0) ->
  receive fuel 19 [] c0 = (Return data, c1) ->
  slice 0 16 data <> MARKER ->
  fst (read_message fuel p)
  = Raise (Notify 1 1 (Diagnostic "The packet received does not contain a BGP marker" []))
  /\ connection (snd (read_message fuel p)) = c1.
Proof.
  intros Hp Hr Hm. rewrite (read_message_framed fuel p c0 c1 data Hp Hr).
  unfold framed. destruct (bytes_eqb (slice 0 16 data) MARKER) eqn:E.
  - apply bytes_eqb_true in E. now contradiction Hm.
  - split; reflexivity.
Qed.




(** X7. When [read_open] returns a message, it is a [NOP] or an OPEN that
    passed every check: no ASN4 problem, the negotiated peer ASN is the one
    configured, the router identifier is not 0.0.0.0, it does not collide
    with the local one, the hold time is at least 3.  The session hold time
    then is the smaller of the two hold times, so at most each of them, and
    at least 3 if the configured one is. *)
Theorem read_open_accepts (fuel : nat) (p : Protocol) (m : Message) :
  fst (read_open fuel p) = Return m ->
  (exists d, m = NOP d)
  \/ exists o h,
      m = Open o
      /\ negociated (snd (read_open fuel p)) = received o (negociated p)
      /\ asn4_problem (received o (negociated p)) = false
      /\ negociated_peer_as (received o (negociated p)) = Neighbor.peer_as (neighbor p)
      /\ open_router_id o <> 0
      /\ ~ (open_router_id o = Neighbor.router_id (neighbor p)
            /\ asn o = Neighbor.local_as (neighbor p))
      /\ 3 <= open_hold_time o
      /\ hold_time (snd (read_open fuel p)) = Some h
      /\ h = Z.min (Neighbor.hold_time (neighbor p)) (open_hold_time o)
      /\ h <= open_hold_time o /\ h <= Neighbor.hold_time (neighbor p)
      /\ (3 <= Neighbor.hold_time (neighbor p) -> 3 <= h).
Proof.
  destruct (read_message fuel p) as [[msg|e|] p1] eqn:Hread;
    try (unfold read_open, bind; rewrite Hread; discriminate).
  pose proof (read_message_frame fuel p) as Hframe. rewrite Hread in Hframe.
  cbn [snd] in Hframe. unfold same_but_connection in Hframe.
  assert (Hneg : negociated p1 = negociated p) by (rewrite Hframe; reflexivity).
  assert (Hnb : neighbor p1 = neighbor p) by (rewrite Hframe; reflexivity).
  rewrite (read_open_opened _ _ _ _ Hread).
  destruct msg as [d| |o|u].
  - cbn. intros H. injection H as <-. left. now exists d.
  - cbn. discriminate.
  - rewrite opened_open, Hneg, Hnb.
    destruct (asn4_problem _) eqn:H4; [discriminate|].
    destruct (negociated_peer_as _ =? _) eqn:Hpeer; [|discriminate]. cbn [negb].
    destruct (open_router_id o =? 0) eqn:H0; [discriminate|].
    destruct ((open_router_id o =? _) && (asn o =? _)) eqn:Hcol; [discriminate|].
    destruct (open_hold_time o <? 3) eqn:Hh; [discriminate|].
    cbn. intros H. injection H as <-. right.
    apply Z.eqb_eq in Hpeer. apply Z.eqb_neq in H0. apply Z.ltb_ge in Hh.
    assert (Hnc : ~ (open_router_id o = Neighbor.router_id (neighbor p)
                     /\ asn o = Neighbor.local_as (neighbor p))).
    { intros [Hr Ha]. apply Z.eqb_eq in Hr, Ha. rewrite Hr, Ha in Hcol. discriminate. }
    exists o, (Z.min (Neighbor.hold_time (neighbor p)) (open_hold_time o)).
    repeat match goal with |- _ /\ _ => split end;
      try assumption; try reflexivity; lia.
  - cbn. discriminate.
Qed.

(** X8. A KEEPALIVE or an UPDATE where the OPEN is expected is refused with
    Notify(5,1), and the negotiated state and the session hold time are left
    as they were. *)
Theorem read_open_unexpected (fuel : nat) (p p1 : Protocol) (m : Message) :
  read_message fuel p = (Return m, p1) ->
  m = KeepAlive \/ (exists u, m = Update u) ->
  rejects (fst (read_open fuel p)) 5 1
  /\ negociated (snd (read_open fuel p)) = negociated p
  /\ hold_time (snd (read_open fuel p)) = hold_time p.
Proof.
  intros Hread Hm.
  pose proof (read_message_frame fuel p) as Hframe. rewrite Hread in Hframe.
  cbn [snd] in Hframe. unfold same_but_connection in Hframe.
  rewrite (read_open_opened _ _ _ _ Hread).
  destruct Hm as [->|[u ->]]; cbn;
    (split; [eexists; reflexivity|]); rewrite Hframe; split; reflexivity.
Qed.

(** X9. [read_keepalive] returns nothing but a [NOP] or a KEEPALIVE, refuses
    an OPEN or an UPDATE with Notify(5,2), and whatever happens leaves the
    negotiated state, the hold time, the backlog and the stall clock as they
    were. *)
Theorem read_keepalive_outcome (fuel : nat) (p : Protocol) :
  (forall m, fst (read_keepalive fuel p) = Return m ->
             (exists d, m = NOP d) \/ m = KeepAlive)
  /\ (forall m p1, read_message fuel p = (Return m, p1) ->
                   (exists o, m = Open o) \/ (exists u, m = Update u) ->
                   fst (read_keepalive fuel p) = Raise (Notify 5 2 NoData))
  /\ negociated (snd (read_keepalive fuel p)) = negociated p
  /\ hold_time (snd (read_keepalive fuel p)) = hold_time p
  /\ _messages (snd (read_keepalive fuel p)) = _messages p
  /\ _frozen (snd (read_keepalive fuel p)) = _frozen p.
Proof.
  pose proof (read_message_frame fuel p) as Hframe.
  unfold read_keepalive, bind, ret, raise, update.
  destruct (read_message fuel p) as [[msg|e|] p1] eqn:Hread;
    cbn [snd] in Hframe; unfold same_but_connection in Hframe.
  - split; [|split].
    + destruct msg as [d| |o|u]; cbn; intros m H; try discriminate;
        injection H as <-; [left; now exists d | now right].
    + intros m q H Hm. injection H as <- <-.
      destruct Hm as [[o ->]|[u ->]]; reflexivity.
    + destruct msg as [d| |o|u]; cbn; rewrite Hframe; repeat split.
  - split; [intros m H; discriminate|]. split; [intros m q H; discriminate|].
    cbn. rewrite Hframe. repeat split.
  - split; [intros m H; discriminate|]. split; [intros m q H; discriminate|].
    cbn. rewrite Hframe. repeat split.
Qed.

(** X10. With the hold time negotiated, [new_keepalive] does not raise; it
    hands back a keepalive exactly when it is forced or no time is left, and
    otherwise leaves the object as it was; the backlog is never shortened:
    at most the one keepalive that could not be written is added to it. *)
Theorem new_keepalive_outcome (force : Force) (now : Q) (p : Protocol) (h : Z) :
  hold_time p = Some h ->
  let left := int_of (last_write (connection p) + keepalive h - now) in
  let r := new_keepalive force now p in
  exists k,
    fst r = Return (left, k)
    /\ (k = Some KeepAlive <-> force = ForceTrue \/ left <= 0)
    /\ (k = None -> snd r = p)
    /\ (_messages (snd r) = _messages p
        \/ _messages (snd r)
           = _messages p ++ [(1, "KEEPALIVE"%string, KeepAlive_message)]).
Proof.
  intros Hh left r. subst r.
  unfold new_keepalive, bind, get, raise, ret, update, on_connection.
  rewrite Hh. fold left.
  destruct (write KeepAlive_message (connection p)) as [written c] eqn:Hw.
  destruct force; cbn [force_truth]; cbv beta iota;
    try (destruct (left <=? 0) eqn:Hl;
         [apply Z.leb_le in Hl | apply Z.leb_gt in Hl]);
    cbv beta; rewrite ?Hw;
    try (exists None; repeat split; try discriminate; auto;
         intros [E|E]; [discriminate E | lia]);
    destruct written; cbn;
    exists (Some KeepAlive); repeat split; auto; discriminate.
Qed.

End Envelope.

(** * Further properties of the outbound pump *)

Section PumpOrder.

Context {K : Collaborators} {C : Type} {T : Transport C}.
Local Abbreviation Protocol := (@Protocol K C).

Lemma logs_connection (lines : list LogLine) (p : Protocol) :
  connection (logs lines p) = connection p.
Proof.
  revert p. induction lines as [|l lines IH]; intros p; [reflexivity|].
  unfold logs in *. simpl. now rewrite IH.
Qed.

(** The loop of [_backlog] writes the entries of a head part of the backlog,
    in order, and stops at the first write that fails or at the end. *)
Lemma drain_split (echo : Z -> list LogLine) (ms : list Entry) :
  forall p : Protocol,
    _messages p = ms ->
    exists pre post c,
      ms = pre ++ post
      /\ fst (drain echo ms p) = map count_of pre
      /\ _messages (snd (drain echo ms p)) = post
      /\ written_all (map chunk_of pre) (connection p) = Some c
      /\ match post with
         | [] => connection (snd (drain echo ms p)) = c
         | e :: _ => write (payload e) c = (false, connection (snd (drain echo ms p)))
         end.
Proof.
  induction ms as [|[[number nm] update] rest IH]; intros p Hms.
  - exists [], [], (connection p). cbn. repeat split; assumption.
  - cbn [drain]. destruct (write update (connection p)) as [[|] c] eqn:Hw; cbn [negb].
    + destruct (IH (logs (echo number)
                         (set_frozen 0%Q (set_messages rest (set_connection c p)))))
        as (pre & post & c' & Hsplit & Hys & Hpost & Hwr & Hlast).
      { now rewrite logs_messages. }
      rewrite logs_connection in Hwr. cbn [connection set_frozen set_messages set_connection] in Hwr.
      destruct (drain echo rest _) as [ys p4]. cbn [fst snd] in *.
      exists ((number, nm, update) :: pre), post, c'.
      repeat split.
      * cbn. now rewrite Hsplit.
      * cbn. now rewrite Hys.
      * exact Hpost.
      * cbn. rewrite Hw. exact Hwr.
      * exact Hlast.
    + exists [], ((number, nm, update) :: rest), (connection p).
      cbn. repeat split; assumption.
Qed.

(** What a call of [_backlog] writes, yields and leaves. *)
Lemma backlog_split (echo : Z -> list LogLine) (t1 t2 t3 : Q) (p : Protocol) :
  let r := _backlog echo t1 t2 t3 p in
  exists pre post c,
    _messages p = pre ++ post
    /\ fst (fst r) = map count_of pre
    /\ _messages (snd r) = post
    /\ written_all (map chunk_of pre) (connection p) = Some c
    /\ (snd (fst r) = Return tt ->
        match post with
        | [] => connection (snd r) = c
        | e :: _ => write (payload e) c = (false, connection (snd r))
        end)
    /\ (snd (fst r) <> Return tt -> pre = [] /\ connection (snd r) = connection p).
Proof.
  intros r. subst r. unfold _backlog.
  destruct (stall_check_effect t1 t2 t3 p) as (Hms & Hc & _).
  destruct (stall_check t1 t2 t3 p) as [[[]|e|] p1]; cbn [fst snd] in *.
  - destruct (drain_split echo (_messages p1) p1 eq_refl)
      as (pre & post & c & Hsplit & Hys & Hpost & Hwr & Hlast).
    destruct (drain echo (_messages p1) p1) as [ys p2]. cbn [fst snd] in *.
    exists pre, post, c. rewrite <- Hms, <- Hc.
    split; [exact Hsplit|]. split; [exact Hys|]. split; [exact Hpost|].
    split; [exact Hwr|]. split; [intros _; exact Hlast|].
    intros Hn. now contradiction Hn.
  - exists [], (_messages p), (connection p).
    split; [reflexivity|]. split; [reflexivity|]. split; [exact Hms|].
    split; [reflexivity|]. split; [discriminate|]. intros _. split; [reflexivity | exact Hc].
  - exists [], (_messages p), (connection p).
    split; [reflexivity|]. split; [reflexivity|]. split; [exact Hms|].
    split; [reflexivity|]. split; [discriminate|]. intros _. split; [reflexivity | exact Hc].
Qed.

(** X11. [_backlog] is first in, first out: it writes the entries of a head
    part of the backlog in order, each write being taken, yields their
    counts in that order and leaves the rest of the backlog as it is; when
    it returns with entries left, it stopped on the refused write of the
    first of them; when it raises, nothing was written. *)
Theorem backlog_fifo (echo : Z -> list LogLine) (t1 t2 t3 : Q) (p : Protocol) :
  let r := _backlog echo t1 t2 t3 p in
  exists pre post c,
    _messages p = pre ++ post
    /\ fst (fst r) = map count_of pre
    /\ _messages (snd r) = post
    /\ written_all (map chunk_of pre) (connection p) = Some c
    /\ (snd (fst r) = Return tt ->
        match post with
        | [] => connection (snd r) = c
        | e :: _ => write (payload e) c = (false, connection (snd r))
        end)
    /\ (snd (fst r) <> Return tt -> pre = [] /\ connection (snd r) = connection p).
Proof. apply backlog_split. Qed.

Lemma buffer_chunks_effect (name : string) (chunks : list (Z * bytes)) :
  forall p : Protocol,
    _messages (buffer_chunks name chunks p) = _messages p ++ map (entry name) chunks
    /\ connection (buffer_chunks name chunks p) = connection p
    /\ message_size (buffer_chunks name chunks p) = message_size p.
Proof.
  induction chunks as [|c chunks IH]; intros p.
  - cbn. now rewrite app_nil_r.
  - unfold buffer_chunks in *. cbn [fold_left].
    destruct (IH (append (entry name c) (log (LogAddingToBuffer (fst c) name) p)))
      as (Hm & Hc & Hs).
    rewrite Hm, Hc, Hs. cbn. rewrite <- app_assoc. repeat split.
Qed.

(** X12. With entries already in the backlog, [_announce] puts the new
    chunks behind them before any write: what it then writes and yields is
    a head part of the old entries followed by the new ones, in that order,
    and the rest stays in the backlog; newer data never overtakes older
    data. *)
Theorem announce_behind_backlog
        (name : string) (generator : list bytes) (t1 t2 t3 : Q) (p : Protocol)
        (chunks : list (Z * bytes)) :
  _messages p <> [] ->
  chunked generator (message_size p) = (chunks, None) ->
  let r := _announce name generator t1 t2 t3 p in
  exists pre post c,
    _messages p ++ map (entry name) chunks = pre ++ post
    /\ fst (fst r) = map count_of pre
    /\ _messages (snd r) = post
    /\ written_all (map chunk_of pre) (connection p) = Some c
    /\ (snd (fst r) = Return tt ->
        match post with
        | [] => connection (snd r) = c
        | e :: _ => write (payload e) c = (false, connection (snd r))
        end).
Proof.
  intros Hne Hchunks r. subst r. unfold _announce. rewrite Hchunks.
  destruct (_messages p) as [|m ms] eqn:Hms; [congruence|]. rewrite <- Hms.
  destruct (buffer_chunks_effect name chunks p) as (Hm & Hc & _).
  destruct (backlog_split (fun number => [LogSentBuffered number name]) t1 t2 t3
              (buffer_chunks name chunks p))
    as (pre & post & c & Hsplit & Hys & Hpost & Hwr & Hlast & _).
  exists pre, post, c. rewrite <- Hm, <- Hc.
  split; [exact Hsplit|]. split; [exact Hys|]. split; [exact Hpost|].
  split; [exact Hwr | exact Hlast].
Qed.

End PumpOrder.

Section PumpEdges.

Context {K : Collaborators} {C : Type} {T : Transport C}.
Local Abbreviation Protocol := (@Protocol K C).

(** From an empty backlog, the loop of [_announce] writes a head part of the
    chunks and buffers the rest. *)
Lemma direct_split (name : string) (chunks : list (Z * bytes)) :
  forall p : Protocol,
    _messages p = [] ->
    exists pre post c,
      chunks = pre ++ post
      /\ fst (direct name true chunks p)
         = map fst pre ++ repeat 0 (List.length post - 1)
      /\ _messages (snd (direct name true chunks p)) = map (entry name) post
      /\ written_all pre (connection p) = Some c
      /\ match post with
         | [] => connection (snd (direct name true chunks p)) = c
         | (_, update) :: _ =>
             write update c = (false, connection (snd (direct name true chunks p)))
         end.
Proof.
  induction chunks as [|[n u] rest IH]; intros p Hms.
  - exists [], [], (connection p). cbn. repeat split; assumption.
  - cbn [direct]. destruct (write u (connection p)) as [[|] c] eqn:Hw.
    + destruct (IH (log (LogSent n name) (set_connection c p)) Hms)
        as (pre & post & c' & Hsplit & Hys & Hpost & Hwr & Hlast).
      cbn [connection log set_connection] in Hwr.
      destruct (direct name true rest _) as [ys p2]. cbn [fst snd] in *.
      exists ((n, u) :: pre), post, c'.
      split; [cbn; now rewrite Hsplit|]. split; [cbn; now rewrite Hys|].
      split; [exact Hpost|]. split; [cbn; rewrite Hw; exact Hwr | exact Hlast].
    + destruct (direct_deferred name rest
                  (append (n, name, u) (log (LogCouldNotSend n name) (set_connection c p))))
        as (Hys & Hm & Hc & _).
      exists [], ((n, u) :: rest), (connection p).
      split; [reflexivity|]. split.
      { rewrite Hys. cbn. now rewrite Nat.sub_0_r. }
      split.
      { rewrite Hm. cbn. rewrite Hms. reflexivity. }
      split; [reflexivity|]. rewrite Hc. cbn. exact Hw.
Qed.

(** X13. From an empty backlog, [_announce] writes a head part of the chunks
    in order, each write being taken, and yields their counts; if a write is
    refused, that chunk and all the later ones make the backlog, in order,
    with a zero yielded for each of the later ones; when every write is
    taken the backlog stays empty. *)
Theorem announce_direct_split
        (name : string) (generator : list bytes) (t1 t2 t3 : Q) (p : Protocol)
        (chunks : list (Z * bytes)) (e : option Exception) :
  _messages p = [] ->
  chunked generator (message_size p) = (chunks, e) ->
  let r := _announce name generator t1 t2 t3 p in
  exists pre post c,
    chunks = pre ++ post
    /\ fst (fst r) = map fst pre ++ repeat 0 (List.length post - 1)
    /\ _messages (snd r) = map (entry name) post
    /\ written_all pre (connection p) = Some c
    /\ match post with
       | [] => connection (snd r) = c
       | (_, update) :: _ => write update c = (false, connection (snd r))
       end
    /\ snd (fst r) = ended e.
Proof.
  intros Hms Hchunks r. subst r. unfold _announce. rewrite Hchunks, Hms.
  destruct (direct_split name chunks p Hms)
    as (pre & post & c & Hsplit & Hys & Hpost & Hwr & Hlast).
  destruct (direct name true chunks p) as [ys p1]. cbn [fst snd] in *.
  exists pre, post, c. repeat split; assumption.
Qed.

Lemma Qlt_bool_true (a b : Q) : Qlt_bool a b = true <-> (a < b)%Q.
Proof.
  unfold Qlt_bool. rewrite negb_true_iff. split.
  - intros H. apply Qnot_le_lt. intros Hle. apply Qle_bool_iff in Hle. congruence.
  - intros H. destruct (Qle_bool b a) eqn:E; [|reflexivity].
    apply Qle_bool_iff in E. exfalso. now apply (Qlt_not_le a b).
Qed.

(** X14. The stall limit: with entries in the backlog, the stall clock set
    and the hold time [h], [_backlog] raises 'peer ... not reading on socket'
    exactly when the clock plus [h] is before the time it reads, and then
    writes nothing and changes nothing; at the limit itself, or before it,
    and within the ceiling, it goes on to its loop. *)
Theorem backlog_stall_limit
        (echo : Z -> list LogLine) (t1 t2 t3 : Q) (p : Protocol) (h : Z) :
  _messages p <> [] ->
  hold_time p = Some h ->
  truthy (_frozen p) = true ->
  let r := _backlog echo t1 t2 t3 p in
  ((_frozen p + inject_Z h < t2)%Q ->
   r = ([], Raise (Failure (PeerNotReading (Neighbor.peer_as (neighbor p)))), p))
  /\ (~ (_frozen p + inject_Z h < t2)%Q ->
      Z.of_nat (List.length (_messages p)) <= MAX_BACKLOG ->
      snd (fst r) = Return tt).
Proof.
  intros Hne Hh Hf r. subst r. unfold _backlog. rewrite stall_check_cases.
  destruct (_messages p) as [|m ms] eqn:Hms; [congruence|].
  cbv zeta. rewrite Hh, Hf. cbv iota. rewrite Hf. cbn [andb]. split.
  - intros Hlt. apply Qlt_bool_true in Hlt. now rewrite Hlt.
  - intros Hge Hn.
    destruct (Qlt_bool (_frozen p + inject_Z h) t2) eqn:E.
    { apply Qlt_bool_true in E. now contradiction Hge. }
    replace (Z.of_nat (List.length (m :: ms)) >? MAX_BACKLOG) with false
      by (symmetry; apply gtb_false; exact Hn).
    destruct (drain echo _ _) as [ys p2]. reflexivity.
Qed.

(** When [stall_check] returns, the backlog is within the ceiling. *)
Lemma stall_check_returns (t1 t2 t3 : Q) (p : Protocol) :
  fst (stall_check t1 t2 t3 p) = Return tt ->
  Z.of_nat (List.length (_messages p)) <= MAX_BACKLOG.
Proof.
  rewrite stall_check_cases.
  destruct (_messages p) as [|m ms]; [intros _; cbn; unfold MAX_BACKLOG; lia|].
  cbv zeta. destruct (hold_time p) as [h|]; [|discriminate].
  destruct (truthy _ && Qlt_bool _ _); [discriminate|].
  destruct (Z.of_nat (List.length (m :: ms)) >? MAX_BACKLOG) eqn:E; [discriminate|].
  intros _. now apply gtb_false.
Qed.

(** X15. When [_backlog] ends without raising, the backlog holds at most
    15000 entries, and never more than before the call. *)
Theorem backlog_returns_within_ceiling
        (echo : Z -> list LogLine) (t1 t2 t3 : Q) (p : Protocol) :
  snd (fst (_backlog echo t1 t2 t3 p)) = Return tt ->
  Z.of_nat (List.length (_messages (snd (_backlog echo t1 t2 t3 p)))) <= MAX_BACKLOG
  /\ (List.length (_messages (snd (_backlog echo t1 t2 t3 p)))
      <= List.length (_messages p))%nat.
Proof.
  intros Hret.
  destruct (backlog_split echo t1 t2 t3 p)
    as (pre & post & c & Hsplit & _ & Hpost & _).
  assert (Hle : (List.length (_messages (snd (_backlog echo t1 t2 t3 p)))
                 <= List.length (_messages p))%nat).
  { rewrite Hpost, Hsplit, length_app. lia. }
  split; [|exact Hle].
  assert (Hceil : Z.of_nat (List.length (_messages p)) <= MAX_BACKLOG).
  { apply (stall_check_returns t1 t2 t3). unfold _backlog in Hret.
    destruct (stall_check t1 t2 t3 p) as [[[]|e|] p1]; cbn in *;
      [reflexivity | discriminate | discriminate]. }
  lia.
Qed.

(** X16. [clear_buffer] empties the backlog and leaves the stall clock as it
    is: on the emptied backlog [_backlog] yields nothing, raises nothing and
    changes nothing; but a clock that was running goes on counting, so that
    when a keepalive that cannot be written is buffered next, a drain later
    than the old clock plus the hold time raises 'peer ... not reading on
    socket' at once. *)
Theorem clear_buffer_keeps_stall_clock
        (echo : Z -> list LogLine) (t1 t2 t3 now : Q) (p : Protocol) (h : Z) :
  let q := snd (clear_buffer p) in
  fst (buffered q) = Return 0
  /\ _frozen q = _frozen p
  /\ _backlog echo t1 t2 t3 q = ([], Return tt, q)
  /\ (truthy (_frozen p) = true ->
      hold_time p = Some h ->
      fst (write KeepAlive_message (connection p)) = false ->
      (_frozen p + inject_Z h < t2)%Q ->
      let q' := snd (new_keepalive ForceTrue now q) in
      _messages q' = [(1, "KEEPALIVE"%string, KeepAlive_message)]
      /\ snd (fst (_backlog echo t1 t2 t3 q'))
         = Raise (Failure (PeerNotReading (Neighbor.peer_as (neighbor p))))).
Proof.
  cbv zeta. split; [reflexivity|]. split; [reflexivity|]. split; [reflexivity|].
  intros Hf Hh Hw Hlt.
  assert (Hq : snd (new_keepalive ForceTrue now (snd (clear_buffer p)))
               = append (1, "KEEPALIVE"%string, KeepAlive_message)
                        (log LogBufferNotEmpty
                             (set_connection (snd (write KeepAlive_message (connection p)))
                                             (set_messages [] p)))).
  { unfold new_keepalive, clear_buffer, bind, get, raise, ret, update, on_connection.
    cbn [snd hold_time set_messages connection]. rewrite Hh.
    cbn [force_truth]. cbv beta iota. cbn [connection set_messages].
    destruct (write KeepAlive_message (connection p)) as [written c].
    cbn [fst] in Hw. subst written. reflexivity. }
  rewrite Hq. split; [reflexivity|].
  unfold _backlog. rewrite stall_check_cases.
  cbn [_messages append set_messages log set_connection app _frozen hold_time neighbor].
  cbv zeta. rewrite Hh, Hf. cbv iota.
  cbn [_frozen append set_messages log set_connection]. rewrite Hf. cbn [andb].
  apply Qlt_bool_true in Hlt. rewrite Hlt. reflexivity.
Qed.

End PumpEdges.

(** * What goes on the wire *)

Section Wire.

Context {K : Collaborators} {C : Type} {T : Transport C}.
Local Existing Instance Recorded.transport.
Local Abbreviation Protocol := (@Protocol K (Recorded.t C)).

Lemma written_all_wire (cs : list (Z * bytes)) :
  forall c c' : Recorded.t C,
    written_all cs c = Some c' ->
    Recorded.wire c' = Recorded.wire c ++ map snd cs.
Proof.
  induction cs as [|[n u] cs IH]; intros c c' H.
  - cbn in H. injection H as <-. now rewrite app_nil_r.
  - cbn [written_all] in H. cbn [write Recorded.transport] in H.
    destruct (write u (Recorded.inner c)) as [[|] i]; [|discriminate].
    rewrite (IH _ _ H). cbn. now rewrite <- app_assoc.
Qed.

Lemma refused_write_wire (b : bytes) (c c' : Recorded.t C) :
  write b c = (false, c') -> Recorded.wire c' = Recorded.wire c.
Proof.
  cbn [write Recorded.transport].
  destruct (write b (Recorded.inner c)) as [[|] i]; intros H; [discriminate|].
  now injection H as <-.
Qed.

Lemma map_snd_entry (name : string) (cs : list (Z * bytes)) :
  map snd (map (entry name) cs) = map snd cs.
Proof. rewrite map_map. apply map_ext. now intros [n u]. Qed.

Lemma map_snd_chunk_of (ms : list Entry) :
  map snd (map chunk_of ms) = map snd ms.
Proof. rewrite map_map. apply map_ext. now intros [[n nm] u]. Qed.

Lemma direct_message_size (name : string) (chunks : list (Z * bytes)) :
  forall (sending : bool) (p : Protocol),
    message_size (snd (direct name sending chunks p)) = message_size p.
Proof.
  induction chunks as [|[n u] rest IH]; intros sending p; [reflexivity|].
  cbn [direct]. destruct sending.
  - destruct (write u (connection p)) as [[|] c].
    + specialize (IH true (log (LogSent n name) (set_connection c p))).
      destruct (direct name true rest _) as [ys p2]. exact IH.
    + now rewrite IH.
  - specialize (IH false (append (n, name, u) (log (LogBufferingRest name n) p))).
    destruct (direct name false rest _) as [ys p2]. exact IH.
Qed.

Lemma logs_message_size (lines : list LogLine) (p : Protocol) :
  message_size (logs lines p) = message_size p.
Proof.
  revert p. induction lines as [|l lines IH]; intros p; [reflexivity|].
  unfold logs in *. simpl. now rewrite IH.
Qed.

Lemma drain_message_size (echo : Z -> list LogLine) (ms : list Entry) :
  forall p : Protocol,
    message_size (snd (drain echo ms p)) = message_size p.
Proof.
  induction ms as [|[[n nm] u] rest IH]; intros p; [reflexivity|].
  cbn [drain]. destruct (write u (connection p)) as [[|] c]; cbn [negb]; [|reflexivity].
  specialize (IH (logs (echo n) (set_frozen 0%Q (set_messages rest (set_connection c p))))).
  destruct (drain echo rest _) as [ys p4]. cbn [snd] in *.
  now rewrite IH, logs_message_size.
Qed.

Lemma backlog_message_size (echo : Z -> list LogLine) (t1 t2 t3 : Q) (p : Protocol) :
  message_size (snd (_backlog echo t1 t2 t3 p)) = message_size p.
Proof.
  unfold _backlog.
  assert (Hs : message_size (snd (stall_check t1 t2 t3 p)) = message_size p).
  { rewrite stall_check_cases. destruct (_messages p); [reflexivity|]. cbv zeta.
    destruct (truthy (_frozen p)); (destruct (hold_time p); [|reflexivity]);
      destruct (truthy _ && Qlt_bool _ _); try reflexivity;
      destruct (_ >? MAX_BACKLOG); reflexivity. }
  destruct (stall_check t1 t2 t3 p) as [[[]|e|] p1]; cbn [snd] in *; try exact Hs.
  pose proof (drain_message_size echo (_messages p1) p1) as Hd.
  destruct (drain echo (_messages p1) p1) as [ys p2]. cbn [snd] in *. congruence.
Qed.

(** Every chunk that [_announce] makes is written or queued, behind what
    was written and queued before. *)
Lemma announce_conserved
      (name : string) (generator : list bytes) (t1 t2 t3 : Q) (p : Protocol)
      (chunks : list (Z * bytes)) (e : option Exception) :
  chunked generator (message_size p) = (chunks, e) ->
  stream (snd (_announce name generator t1 t2 t3 p)) = stream p ++ map snd chunks
  /\ message_size (snd (_announce name generator t1 t2 t3 p)) = message_size p.
Proof.
  intros Hchunks. unfold _announce. rewrite Hchunks.
  destruct (_messages p) as [|m ms] eqn:Hms.
  - destruct (direct_split name chunks p Hms)
      as (pre & post & c & Hsplit & _ & Hpost & Hwr & Hlast).
    pose proof (direct_message_size name chunks true p) as Hsize.
    destruct (direct name true chunks p) as [ys p1]. cbn [fst snd] in *.
    split; [|exact Hsize].
    unfold stream. rewrite Hpost, Hms, map_snd_entry, Hsplit, map_app, app_nil_r.
    apply written_all_wire in Hwr.
    destruct post as [|[n u] post'].
    + rewrite Hlast, Hwr. now rewrite <- app_assoc.
    + apply refused_write_wire in Hlast. rewrite Hlast, Hwr. now rewrite <- app_assoc.
  - destruct (buffer_chunks_effect name chunks p) as (Hm & Hc & Hs).
    destruct e as [e|].
    + cbn [snd]. split; [|exact Hs].
      unfold stream. rewrite Hm, Hc, map_app, map_snd_entry.
      now rewrite app_assoc.
    + rewrite backlog_message_size. split; [|exact Hs].
      destruct (backlog_split (fun number => [LogSentBuffered number name]) t1 t2 t3
                  (buffer_chunks name chunks p))
        as (pre & post & c & Hsplit & _ & Hpost & Hwr & Hret & Hraise).
      apply written_all_wire in Hwr. rewrite map_snd_chunk_of, Hc in Hwr.
      assert (Hwire : Recorded.wire
                        (connection (snd (_backlog (fun number => [LogSentBuffered number name])
                                                   t1 t2 t3 (buffer_chunks name chunks p))))
                      = Recorded.wire (connection p) ++ map snd pre).
      { destruct (snd (fst (_backlog (fun number => [LogSentBuffered number name])
                                     t1 t2 t3 (buffer_chunks name chunks p)))) as [[]|x|] eqn:Ho.
        - specialize (Hret eq_refl). destruct post as [|y post'].
          + now rewrite Hret.
          + apply refused_write_wire in Hret. now rewrite Hret.
        - destruct Hraise as [-> Hcx]; [discriminate|].
          rewrite Hcx, Hc. cbn. now rewrite app_nil_r.
        - destruct Hraise as [-> Hcx]; [discriminate|].
          rewrite Hcx, Hc. cbn. now rewrite app_nil_r. }
      unfold stream. rewrite Hwire, Hpost.
      assert (Hall : map snd (pre ++ post)
                     = map snd (_messages p) ++ map snd chunks).
      { transitivity (map snd (_messages (buffer_chunks name chunks p)));
          [now f_equal|].
        now rewrite Hm, map_app, map_snd_entry. }
      rewrite map_app in Hall.
      rewrite <- (app_assoc _ (map snd pre) (map snd post)).
      transitivity (Recorded.wire (connection p)
                    ++ map snd (_messages p) ++ map snd chunks);
        [now f_equal | now rewrite app_assoc].
Qed.

(** X17. Nothing is lost, doubled or put out of order by [_announce]: when
    every fragment fits the message size, the bytes the transport has taken
    followed by the bytes waiting in the backlog are, after the call, those
    of before the call followed by the bytes of the fragments in their
    order; whether the backlog was empty or not, whichever writes were
    refused, and also when the drain raised. *)
Theorem announce_stream
        (name : string) (generator : list bytes) (t1 t2 t3 : Q) (p : Protocol) :
  Forall (fun d => len d <= message_size p) generator ->
  List.concat (stream (snd (_announce name generator t1 t2 t3 p)))
  = List.concat (stream p) ++ List.concat generator.
Proof.
  intros Hall.
  destruct (chunked_loop_total (message_size p) generator [] 0 [] Hall) as [cs Hcs].
  pose proof (chunked_loop_bytes (message_size p) generator _ _ _ _ Hall Hcs) as Hbytes.
  destruct (announce_conserved name generator t1 t2 t3 p cs None Hcs) as [Hstream _].
  rewrite Hstream, concat_app. f_equal. exact Hbytes.
Qed.

(** X18. [new_eors] submits the end-of-RIB markers in the order of the
    families: with markers that are not empty and fit the message size, the
    buffers taken by the transport followed by those of the backlog are,
    after the call, those of before followed by the markers of the families
    gone through, one buffer each, in order; and all the families were gone
    through when the call returns. *)
Theorem new_eors_stream (eors : list EorCall) :
  forall p : Protocol,
    Forall (fun eor => eor_pack eor <> [] /\ len (eor_pack eor) <= message_size p) eors ->
    exists gone rest,
      eors = gone ++ rest
      /\ stream (snd (new_eors eors p)) = stream p ++ map eor_pack gone
      /\ (fst (new_eors eors p) = Return tt -> rest = []).
Proof.
  induction eors as [|eor eors IH]; intros p Hall.
  - exists [], []. cbn. rewrite app_nil_r. repeat split.
  - inversion Hall as [|? ? [Hne Hfit] Hrest]; subst.
    cbn [new_eors]. destruct (eor_clock eor) as [[t1 t2] t3].
    assert (Hchunk : chunked [eor_pack eor] (message_size p) = ([(1, eor_pack eor)], None)).
    { unfold chunked. rewrite chunked_loop_single.
      - cbn. rewrite app_nil_r. destruct (eor_pack eor); [now contradiction Hne | reflexivity].
      - cbn. rewrite app_nil_r. change (len []) with 0. lia. }
    destruct (announce_conserved (eor_name eor) [eor_pack eor] t1 t2 t3 p _ _ Hchunk)
      as [Hstream Hsize].
    destruct (_announce (eor_name eor) [eor_pack eor] t1 t2 t3 p) as [[ys [[]|e|]] p1];
      cbn [fst snd] in *.
    + destruct (IH p1) as (gone & rest & Hsplit & Hs & Hr).
      { rewrite Hsize. exact Hrest. }
      exists (eor :: gone), rest. rewrite Hs, Hstream. cbn.
      rewrite <- app_assoc. split; [now rewrite Hsplit|]. split; [reflexivity | exact Hr].
    + exists [eor], eors. rewrite Hstream. cbn. repeat split. discriminate.
    + exists [eor], eors. rewrite Hstream. cbn. repeat split. discriminate.
Qed.

End Wire.

(** ** The further properties on the scripted transport *)

Lemma chunked_counts_witness :
  Forall (fun d => len d <= 2) [[x01; x02]; []; [x03]]
  /\ chunked [[x01; x02]; []; [x03]] 2 = ([(2, [x01; x02]); (1, [x03])], None)
  /\ counts [(2, [x01; x02]); (1, [x03])] = 3.
Proof.
  assert (H1 : Forall (fun d => len d <= 2) [[x01; x02]; []; [x03]])
    by (repeat constructor; vm_compute; discriminate).
  assert (H2 : chunked [[x01; x02]; []; [x03]] 2
               = ([(2, [x01; x02]); (1, [x03])], None)) by reflexivity.
  split; [exact H1|]. split; [exact H2|].
  exact (proj1 (proj2 (chunked_counts 2 _ _ H1 H2)) ltac:(discriminate)).
Defined.

Lemma chunked_packed_witness :
  chunked [[x01; x02]; []; [x03]] 2 = ([(2, [x01; x02]); (1, [x03])], None)
  /\ packed 2 [(2, [x01; x02]); (1, [x03])].
Proof.
  assert (H : chunked [[x01; x02]; []; [x03]] 2
              = ([(2, [x01; x02]); (1, [x03])], None)) by reflexivity.
  split; [exact H|]. exact (chunked_packed 2 _ _ _ H).
Defined.

Lemma chunked_single_witness :
  len (List.concat [[x01]; [x02]]) <= 4077
  /\ chunked [[x01]; [x02]] 4077 = ([(2, [x01; x02])], None).
Proof.
  assert (H : len (List.concat [[x01]; [x02]]) <= 4077)
    by (vm_compute; discriminate).
  split; [exact H|].
  exact (chunked_single 4077 [[x01]; [x02]] H ltac:(discriminate)).
Defined.

Lemma read_message_bad_marker_witness :
  slice 0 16 unmarked_header <> MARKER
  /\ fst (read_message 1 (Plain.protocol (Scripted.make [unmarked_header] [])))
     = Raise (Notify 1 1 (Diagnostic "The packet received does not contain a BGP marker" [])).
Proof.
  assert (H : slice 0 16 unmarked_header <> MARKER) by (vm_compute; discriminate).
  split; [exact H|].
  exact (proj1 (read_message_bad_marker 1
                  (Plain.protocol (Scripted.make [unmarked_header] []))
                  (Scripted.make [unmarked_header] [])
                  (snd (receive 1 19 [] (Scripted.make [unmarked_header] [])))
                  unmarked_header eq_refl eq_refl H)).
Defined.


Lemma read_open_accepts_witness :
  fst (read_open 2 session_open_hold_3)
  = Return (Open (Plain.mk_open 4 65001 3 167772162 false))
  /\ exists h, hold_time (snd (read_open 2 session_open_hold_3)) = Some h
               /\ h <= 180.
Proof.
  assert (H : fst (read_open 2 session_open_hold_3)
              = Return (Open (Plain.mk_open 4 65001 3 167772162 false)))
    by (vm_compute; reflexivity).
  split; [exact H|].
  destruct (read_open_accepts 2 session_open_hold_3 _ H)
    as [[d E]|(o & h & _ & _ & _ & _ & _ & _ & _ & Hh & _ & _ & Hle & _)];
    [discriminate E|].
  exists h. split; [exact Hh | exact Hle].
Defined.

Lemma read_open_unexpected_witness :
  read_message 1 (Plain.protocol (Scripted.make [KeepAlive_message] []))
  = (Return KeepAlive,
     snd (read_message 1 (Plain.protocol (Scripted.make [KeepAlive_message] []))))
  /\ rejects (fst (read_open 1 (Plain.protocol (Scripted.make [KeepAlive_message] [])))) 5 1.
Proof.
  assert (H : read_message 1 (Plain.protocol (Scripted.make [KeepAlive_message] []))
              = (Return KeepAlive,
                 snd (read_message 1 (Plain.protocol (Scripted.make [KeepAlive_message] [])))))
    by (vm_compute; reflexivity).
  split; [exact H|].
  exact (proj1 (read_open_unexpected 1 _ _ _ H (or_introl eq_refl))).
Defined.

Lemma new_keepalive_outcome_witness :
  hold_time (established [true] [] 0%Q 4077) = Some 180
  /\ exists k, fst (new_keepalive ForceTrue 0 (established [true] [] 0%Q 4077))
               = Return (60, k).
Proof.
  split; [reflexivity|].
  destruct (new_keepalive_outcome ForceTrue 0 (established [true] [] 0%Q 4077) 180 eq_refl)
    as (k & Hk & _).
  exists k. exact Hk.
Defined.

Lemma announce_behind_backlog_witness :
  _messages two_queued <> []
  /\ chunked [[x03]] (message_size two_queued) = ([(1, [x03])], None)
  /\ exists pre post,
      _messages two_queued ++ map (entry "UPDATE") [(1, [x03])] = pre ++ post
      /\ fst (fst (_announce "UPDATE" [[x03]] 110 110 110 two_queued)) = map count_of pre
      /\ _messages (snd (_announce "UPDATE" [[x03]] 110 110 110 two_queued)) = post.
Proof.
  assert (H1 : _messages two_queued <> []) by discriminate.
  assert (H2 : chunked [[x03]] (message_size two_queued) = ([(1, [x03])], None))
    by reflexivity.
  split; [exact H1|]. split; [exact H2|].
  destruct (announce_behind_backlog "UPDATE" [[x03]] 110 110 110 two_queued _ H1 H2)
    as (pre & post & c & Hsplit & Hys & Hpost & _).
  exists pre, post. repeat split; assumption.
Defined.

Lemma announce_direct_split_witness :
  _messages (established [true; false] [] 0%Q 2) = []
  /\ chunked [[x01; x02]; [x03]; [x04]] 2 = ([(1, [x01; x02]); (2, [x03; x04])], None)
  /\ exists pre post,
      [(1, [x01; x02]); (2, [x03; x04])] = pre ++ post
      /\ _messages (snd (_announce "UPDATE" [[x01; x02]; [x03]; [x04]] 0 0 0
                                   (established [true; false] [] 0%Q 2)))
         = map (entry "UPDATE") post.
Proof.
  assert (H2 : chunked [[x01; x02]; [x03]; [x04]]
                       (message_size (established [true; false] [] 0%Q 2))
               = ([(1, [x01; x02]); (2, [x03; x04])], None)) by reflexivity.
  split; [reflexivity|]. split; [exact H2|].
  destruct (announce_direct_split "UPDATE" _ 0 0 0 (established [true; false] [] 0%Q 2)
                                  _ _ eq_refl H2)
    as (pre & post & c & Hsplit & _ & Hpost & _).
  exists pre, post. split; assumption.
Defined.

Lemma backlog_stall_limit_witness :
  (_frozen two_queued + inject_Z 180 < 300)%Q
  /\ _backlog (fun _ => []) 300 300 300 two_queued
     = ([], Raise (Failure (PeerNotReading 65001)), two_queued).
Proof.
  assert (H : (_frozen two_queued + inject_Z 180 < 300)%Q) by (vm_compute; reflexivity).
  split; [exact H|].
  exact (proj1 (backlog_stall_limit (fun _ => []) 300 300 300 two_queued 180
                  ltac:(discriminate) eq_refl eq_refl) H).
Defined.

Lemma backlog_returns_within_ceiling_witness :
  snd (fst (_backlog (fun _ => []) 110 110 110 two_queued)) = Return tt
  /\ Z.of_nat (List.length (_messages (snd (_backlog (fun _ => []) 110 110 110 two_queued))))
     <= MAX_BACKLOG.
Proof.
  assert (H : snd (fst (_backlog (fun _ => []) 110 110 110 two_queued)) = Return tt)
    by (vm_compute; reflexivity).
  split; [exact H|].
  exact (proj1 (backlog_returns_within_ceiling (fun _ => []) 110 110 110 two_queued H)).
Defined.

#[local] Existing Instance Recorded.transport.

Lemma announce_stream_witness :
  Forall (fun d => len d <= message_size (observed [true; false] [] 2))
         [[x01; x02]; [x03]; [x04]]
  /\ List.concat (stream (snd (_announce "UPDATE" [[x01; x02]; [x03]; [x04]] 0 0 0
                                         (observed [true; false] [] 2))))
     = [x01; x02; x03; x04].
Proof.
  assert (H : Forall (fun d => len d <= message_size (observed [true; false] [] 2))
                     [[x01; x02]; [x03]; [x04]])
    by (repeat constructor; vm_compute; discriminate).
  split; [exact H|].
  exact (announce_stream "UPDATE" _ 0 0 0 (observed [true; false] [] 2) H).
Defined.

Lemma new_eors_stream_witness :
  Forall (fun eor => eor_pack eor <> []
                     /\ len (eor_pack eor) <= message_size (observed [true; false] [] 4077))
         two_eors
  /\ exists gone rest,
      two_eors = gone ++ rest
      /\ stream (snd (new_eors two_eors (observed [true; false] [] 4077)))
         = map eor_pack gone.
Proof.
  assert (H : Forall (fun eor => eor_pack eor <> []
                                 /\ len (eor_pack eor)
                                    <= message_size (observed [true; false] [] 4077))
                     two_eors)
    by (repeat constructor; try discriminate; vm_compute; discriminate).
  split; [exact H|].
  destruct (new_eors_stream two_eors (observed [true; false] [] 4077) H)
    as (gone & rest & Hsplit & Hs & _).
  exists gone, rest. split; [exact Hsplit | exact Hs].
Defined.

Lemma clear_buffer_keeps_stall_clock_witness :
  (_frozen two_queued + inject_Z 180 < 300)%Q
  /\ snd (fst (_backlog (fun _ => []) 300 300 300
                        (snd (new_keepalive ForceTrue 0
                                (snd (clear_buffer (established [false] [(1, "UPDATE"%string, [x01])]
                                                                100%Q 4077)))))))
     = Raise (Failure (PeerNotReading 65001)).
Proof.
  assert (H : (_frozen two_queued + inject_Z 180 < 300)%Q) by (vm_compute; reflexivity).
  split; [exact H|].
  pose proof (clear_buffer_keeps_stall_clock (fun _ => []) 300 300 300 0
                (established [false] [(1, "UPDATE"%string, [x01])] 100%Q 4077) 180) as W.
  cbv zeta in W. destruct W as (_ & _ & _ & W).
  exact (proj2 (W eq_refl eq_refl eq_refl H)).
Defined.
